(** * Good-Bots: a shallow embedding of [good_bots/core.py]

    The program fetches an index of bot-tracking sources, fetches every
    source, normalises the IPv4 prefixes it finds to [start-end] ranges,
    merges them with a static list of additional bots and renders a Python
    settings module.

    The embedding follows the source function by function.  Python values
    that come out of [json.loads] are modelled by the type [json]; a Python
    exception that escapes a function is a [Raise]; whatever the program
    prints or writes is recorded, in order, in a trace of events.  The
    network, the packaged configuration, the clock, the file system and
    the interpreter's Unicode tables are read from a [world].  The two
    standard streams are taken to accept every line: no [print] raises. *)

From Stdlib Require Import ZArith List String Ascii Bool Lia Arith.
From Stdlib Require Import Sorting.Sorted Sorting.Permutation DecimalString.
Import ListNotations.

Local Open Scope string_scope.
Local Open Scope list_scope.

Set Implicit Arguments.

(* ===================================================================== *)
(** * Python strings *)
(* ===================================================================== *)

(** A Python [str] is modelled by its UTF-8 encoding, a string of bytes.
    Searching, splitting and replacing by ASCII characters act on the
    encoding as they act on the text, and the byte order used for sorting
    is the code-point order of the text.  Where the characters matter
    (iterating over a text) the encoding is cut into characters by
    [chars]; casing ([title]) is defined here for ASCII text only, and
    [core.str_title] asks the world about any other text. *)
Module PyStr.

Definition nl : string := String (ascii_of_nat 10) EmptyString.

Definition is_empty (s : string) : bool :=
  match s with EmptyString => true | _ => false end.

(** [s.split(sep)] for a one-character separator. *)
Fixpoint split (sep : ascii) (s : string) : list string :=
  match s with
  | EmptyString => [EmptyString]
  | String c s' =>
      if Ascii.eqb c sep then EmptyString :: split sep s'
      else match split sep s' with
           | [] => [String c EmptyString]
           | w :: ws => String c w :: ws
           end
  end.

(** [sep.join(parts)]. *)
Definition join (sep : string) (parts : list string) : string :=
  String.concat sep parts.

(** [c in s] for a character [c]. *)
Fixpoint mem (c : ascii) (s : string) : bool :=
  match s with
  | EmptyString => false
  | String c' s' => Ascii.eqb c' c || mem c s'
  end.

(** [needle in hay]: substring test. *)
Fixpoint contains (needle hay : string) : bool :=
  String.prefix needle hay
  || match hay with
     | EmptyString => false
     | String _ hay' => contains needle hay'
     end.

Definition is_ascii_digit (c : ascii) : bool :=
  let n := nat_of_ascii c in (48 <=? n)%nat && (n <=? 57)%nat.

Fixpoint all_digits (s : string) : bool :=
  match s with
  | EmptyString => true
  | String c s' => is_ascii_digit c && all_digits s'
  end.

(** [s.isascii() and s.isdigit()]: non-empty, ASCII digits only. *)
Definition isascii_isdigit (s : string) : bool :=
  negb (is_empty s) && all_digits s.

(** [int(s, 10)] on a string of ASCII digits. *)
Fixpoint int_digits (acc : Z) (s : string) : Z :=
  match s with
  | EmptyString => acc
  | String c s' =>
      int_digits (10 * acc + (Z.of_nat (nat_of_ascii c) - 48)) s'
  end.

Definition int10 (s : string) : Z := int_digits 0 s.

(** [str(n)] for an integer. *)
Definition str_int (z : Z) : string := NilZero.string_of_int (Z.to_int z).

Definition str_nat (n : nat) : string := NilZero.string_of_uint (Nat.to_uint n).

(** [s.isascii()] *)
Fixpoint isascii (s : string) : bool :=
  match s with
  | EmptyString => true
  | String c s' => (nat_of_ascii c <? 128)%nat && isascii s'
  end.

(** A byte [10xxxxxx] continues the character of the byte before it. *)
Definition is_continuation (c : ascii) : bool :=
  let n := nat_of_ascii c in (128 <=? n)%nat && (n <=? 191)%nat.

(** The encoding read from the right: the continuation bytes that still
    wait for their leading byte, and the characters after them. *)
Fixpoint chars_from (s : string) : string * list string :=
  match s with
  | EmptyString => (EmptyString, [])
  | String c s' =>
      let (pending, done) := chars_from s' in
      if is_continuation c then (String c pending, done)
      else (EmptyString, String c pending :: done)
  end.

(** [list(s)]: the characters of a text. *)
Definition chars (s : string) : list string :=
  let (pending, done) := chars_from s in
  if is_empty pending then done else pending :: done.

Definition is_lower (c : ascii) : bool :=
  let n := nat_of_ascii c in (97 <=? n)%nat && (n <=? 122)%nat.

Definition is_upper (c : ascii) : bool :=
  let n := nat_of_ascii c in (65 <=? n)%nat && (n <=? 90)%nat.

Definition to_upper (c : ascii) : ascii :=
  if is_lower c then ascii_of_nat (nat_of_ascii c - 32) else c.

Definition to_lower (c : ascii) : ascii :=
  if is_upper c then ascii_of_nat (nat_of_ascii c + 32) else c.

(** [s.title()] for an ASCII text [s]: a letter is upper-cased when the
    character before it is not a letter, lower-cased otherwise. *)
Fixpoint title_from (previous_is_cased : bool) (s : string) : string :=
  match s with
  | EmptyString => EmptyString
  | String c s' =>
      if is_lower c then
        String (if previous_is_cased then c else to_upper c)
               (title_from true s')
      else if is_upper c then
        String (if previous_is_cased then to_lower c else c)
               (title_from true s')
      else String c (title_from false s')
  end.

Definition title (s : string) : string := title_from false s.

(** [s.replace(a, b)] for one-character [a] and [b]. *)
Fixpoint replace (a b : ascii) (s : string) : string :=
  match s with
  | EmptyString => EmptyString
  | String c s' => String (if Ascii.eqb c a then b else c) (replace a b s')
  end.

End PyStr.

(* ===================================================================== *)
(** * The standard library's [ipaddress.IPv4Network] *)
(* ===================================================================== *)

(** The part of CPython's [ipaddress] module (Python 3.10 and later, the
    versions the package supports) that [IPv4Network(text, strict=False)]
    runs on a string.  Every exception of the module is a [ValueError].
    Left out: the interpreter's limit on the number of digits [int]
    converts (4300 unless configured otherwise), which only a mask of more
    than 4300 characters can reach. *)
Module ipaddress.
Import PyStr.
Local Open Scope Z_scope.

Inductive octet_error : Type :=
| EmptyOctet
| OnlyDecimalDigits
| AtMost3Characters
| LeadingZeros
| OctetTooLarge (octet_int : Z).

Inductive ValueError : Type :=
| OnlyOneSlashPermitted (address : string)
| AddressCannotBeEmpty
| Expected4Octets (ip_str : string)
| OctetError (e : octet_error) (octet_str ip_str : string)
| NotAValidNetmask (netmask_str : string)
| NotAnAddressText.

Inductive checked (A : Type) : Type :=
| Parsed (a : A)
| Invalid (e : ValueError).
Arguments Parsed {A} a.
Arguments Invalid {A} e.

Definition _max_prefixlen : Z := 32.
Definition _ALL_ONES : Z := 2 ^ 32 - 1.

Definition _split_optional_netmask (address : string) : checked (list string) :=
  let addr := split "/" address in
  if (2 <? List.length addr)%nat then Invalid (OnlyOneSlashPermitted address)
  else Parsed addr.

Definition _parse_octet (octet_str : string) : octet_error + Z :=
  if is_empty octet_str then inl EmptyOctet
  else if negb (isascii_isdigit octet_str) then inl OnlyDecimalDigits
  else if (3 <? String.length octet_str)%nat then inl AtMost3Characters
  else if negb (String.eqb octet_str "0")
          && match octet_str with
             | String c _ => Ascii.eqb c "0"
             | EmptyString => false
             end
       then inl LeadingZeros
  else let octet_int := int10 octet_str in
       if (255 <? octet_int)%Z then inl (OctetTooLarge octet_int)
       else inr octet_int.

(** [int.from_bytes(map(_parse_octet, octets), 'big')]: the octets are
    parsed from left to right and the first bad one raises. *)
Fixpoint from_octets (ip_str : string) (acc : Z) (octets : list string)
  : checked Z :=
  match octets with
  | [] => Parsed acc
  | o :: rest =>
      match _parse_octet o with
      | inl e => Invalid (OctetError e o ip_str)
      | inr b => from_octets ip_str (256 * acc + b) rest
      end
  end.

Definition _ip_int_from_string (ip_str : string) : checked Z :=
  if is_empty ip_str then Invalid AddressCannotBeEmpty
  else
    let octets := split "." ip_str in
    if negb (List.length octets =? 4)%nat then Invalid (Expected4Octets ip_str)
    else from_octets ip_str 0 octets.

Definition bit_length (x : Z) : Z :=
  if (x =? 0)%Z then 0 else Z.log2 (Z.abs x) + 1.

Definition _count_righthand_zero_bits (number bits : Z) : Z :=
  if (number =? 0)%Z then bits
  else Z.min bits (bit_length (Z.land (Z.lnot number) (number - 1))).

(** [None] stands for the [ValueError] about a pattern that mixes zeroes
    and ones, which both callers catch. *)
Definition _prefix_from_ip_int (ip_int : Z) : option Z :=
  let trailing_zeroes := _count_righthand_zero_bits ip_int _max_prefixlen in
  let prefixlen := _max_prefixlen - trailing_zeroes in
  let leading_ones := Z.shiftr ip_int trailing_zeroes in
  let all_ones := Z.shiftl 1 prefixlen - 1 in
  if negb (leading_ones =? all_ones)%Z then None else Some prefixlen.

Definition _prefix_from_prefix_string (prefixlen_str : string) : checked Z :=
  if negb (isascii_isdigit prefixlen_str)
  then Invalid (NotAValidNetmask prefixlen_str)
  else
    let prefixlen := int10 prefixlen_str in
    if negb ((0 <=? prefixlen)%Z && (prefixlen <=? _max_prefixlen)%Z)
    then Invalid (NotAValidNetmask prefixlen_str)
    else Parsed prefixlen.

Definition _prefix_from_ip_string (ip_str : string) : checked Z :=
  match _ip_int_from_string ip_str with
  | Invalid _ => Invalid (NotAValidNetmask ip_str)
  | Parsed ip_int =>
      match _prefix_from_ip_int ip_int with
      | Some prefixlen => Parsed prefixlen
      | None =>
          match _prefix_from_ip_int (Z.lxor ip_int _ALL_ONES) with
          | Some prefixlen => Parsed prefixlen
          | None => Invalid (NotAValidNetmask ip_str)
          end
      end
  end.

Definition _ip_int_from_prefix (prefixlen : Z) : Z :=
  Z.lxor _ALL_ONES (Z.shiftr _ALL_ONES prefixlen).

(** [_make_netmask(arg)]; [None] is the integer [_max_prefixlen] that
    [_split_addr_prefix] supplies when the text has no slash. *)
Definition _make_netmask (arg : option string) : checked (Z * Z) :=
  let prefix :=
    match arg with
    | None => Parsed _max_prefixlen
    | Some s =>
        match _prefix_from_prefix_string s with
        | Parsed p => Parsed p
        | Invalid _ => _prefix_from_ip_string s
        end
    end in
  match prefix with
  | Parsed prefixlen => Parsed (_ip_int_from_prefix prefixlen, prefixlen)
  | Invalid e => Invalid e
  end.

Record IPv4Network : Type := mkNetwork {
  network_address : Z;
  netmask : Z;
  _prefixlen : Z
}.

(** [IPv4Network(address, strict=False)] on a string. *)
Definition IPv4Network_of (address : string) : checked IPv4Network :=
  match _split_optional_netmask address with
  | Invalid e => Invalid e
  | Parsed parts =>
      let addr := hd EmptyString parts in
      let mask := match parts with _ :: m :: _ => Some m | _ => None end in
      match _ip_int_from_string addr with
      | Invalid e => Invalid e
      | Parsed packed =>
          match _make_netmask mask with
          | Invalid e => Invalid e
          | Parsed (nm, prefixlen) =>
              Parsed (mkNetwork (Z.land packed nm) nm prefixlen)
          end
      end
  end.

Definition hostmask (n : IPv4Network) : Z := Z.lxor (netmask n) _ALL_ONES.

Definition broadcast_address (n : IPv4Network) : Z :=
  Z.lor (network_address n) (hostmask n).

(** [str(IPv4Address(ip))]: the four bytes, big end first, in decimal. *)
Definition to_bytes4 (ip : Z) : list Z :=
  [ Z.land (Z.shiftr ip 24) 255; Z.land (Z.shiftr ip 16) 255;
    Z.land (Z.shiftr ip 8) 255; Z.land ip 255 ].

Definition str_address (ip : Z) : string :=
  join "." (map str_int (to_bytes4 ip)).

End ipaddress.

(* ===================================================================== *)
(** * Python values, exceptions and the trace of a run *)
(* ===================================================================== *)

(** What [json.loads] and [response.json()] return.  Python's [None] is
    [JNull].  Numbers are integers; documents with fractional numbers are
    outside the model.  The fields of a [JDict] are looked up from the
    left. *)
#[warnings="-register-all"]
Inductive json : Type :=
| JNull
| JBool (b : bool)
| JInt (z : Z)
| JStr (s : string)
| JList (items : list json)
| JDict (fields : list (string * json)).

(** The exceptions that escape: the three that ill-shaped documents
    cause, and the two that the file system and the codecs cause
    ([OSError] stands for its subclasses) where nothing catches them. *)
Inductive exn : Type :=
| TypeError | AttributeError | KeyError | OSError | UnicodeError.

Inductive result (A : Type) : Type :=
| Ok (a : A)
| Raise (e : exn).
Arguments Ok {A} a.
Arguments Raise {A} e.

(** Keys of the mapping from bot names to ranges: the hashable values. *)
Inductive pykey : Type :=
| KNone
| KBool (b : bool)
| KInt (z : Z)
| KStr (s : string).

Module PyVal.
Import PyStr.

(** [bool(v)], the test of [if v:] and [not v]. *)
Definition truthy (v : json) : bool :=
  match v with
  | JNull => false
  | JBool b => b
  | JInt z => negb (z =? 0)%Z
  | JStr s => negb (is_empty s)
  | JList items => match items with [] => false | _ => true end
  | JDict fields => match fields with [] => false | _ => true end
  end.

Fixpoint lookup (key : string) (fields : list (string * json)) : option json :=
  match fields with
  | [] => None
  | (k, v) :: rest => if String.eqb k key then Some v else lookup key rest
  end.

Definition is_the_str (needle : string) (v : json) : bool :=
  match v with JStr s => String.eqb s needle | _ => false end.

(** [needle in container] for a string [needle]. *)
Definition py_in (needle : string) (container : json) : result bool :=
  match container with
  | JDict fields =>
      Ok (match lookup needle fields with Some _ => true | None => false end)
  | JList items => Ok (existsb (is_the_str needle) items)
  | JStr s => Ok (contains needle s)
  | JNull | JBool _ | JInt _ => Raise TypeError
  end.

(** [container[key]] for a string [key]. *)
Definition py_getitem (container : json) (key : string) : result json :=
  match container with
  | JDict fields =>
      match lookup key fields with Some v => Ok v | None => Raise KeyError end
  | _ => Raise TypeError
  end.

(** [container.get(key, default)]. *)
Definition py_get (container : json) (key : string) (default : json)
  : result json :=
  match container with
  | JDict fields =>
      Ok (match lookup key fields with Some v => v | None => default end)
  | _ => Raise AttributeError
  end.

(** The items a [for] loop over [container] visits: the elements of a
    list, the keys of a mapping, the characters of a string. *)
Definition py_iter (container : json) : result (list json) :=
  match container with
  | JList items => Ok items
  | JDict fields => Ok (map (fun kv => JStr (fst kv)) fields)
  | JStr s => Ok (map JStr (chars s))
  | JNull | JBool _ | JInt _ => Raise TypeError
  end.

Definition hashable (v : json) : option pykey :=
  match v with
  | JNull => Some KNone
  | JBool b => Some (KBool b)
  | JInt z => Some (KInt z)
  | JStr s => Some (KStr s)
  | JList _ | JDict _ => None
  end.

Definition key_num (k : pykey) : option Z :=
  match k with
  | KBool b => Some (if b then 1 else 0)%Z
  | KInt z => Some z
  | KNone | KStr _ => None
  end.

(** [a == b] on keys: [True == 1] and [False == 0]. *)
Definition key_eqb (a b : pykey) : bool :=
  match a, b with
  | KNone, KNone => true
  | KStr s, KStr t => String.eqb s t
  | _, _ =>
      match key_num a, key_num b with
      | Some x, Some y => (x =? y)%Z
      | _, _ => false
      end
  end.

(** [str(k)], as an f-string formats a key. *)
Definition str_key (k : pykey) : string :=
  match k with
  | KNone => "None"
  | KBool true => "True"
  | KBool false => "False"
  | KInt z => str_int z
  | KStr s => s
  end.

End PyVal.

(** ** Sorting *)

Section InsertionSort.
Variable A : Type.
Variable leb : A -> A -> bool.

Fixpoint insert (x : A) (l : list A) : list A :=
  match l with
  | [] => [x]
  | y :: l' => if leb x y then x :: l else y :: insert x l'
  end.

Definition isort (l : list A) : list A := fold_right insert [] l.
End InsertionSort.

(** ** The mapping from bot names to range lists

    A Python [dict]: insertion ordered, one entry per key; assigning to a
    key that is present keeps its position (and the key object) and
    replaces the value. *)
Definition bots : Type := list (pykey * list string).

Module Dict.
Import PyVal.

Fixpoint set (k : pykey) (v : list string) (d : bots) : bots :=
  match d with
  | [] => [(k, v)]
  | (k', v') :: d' =>
      if key_eqb k' k then (k', v) :: d' else (k', v') :: set k v d'
  end.

Fixpoint get (k : pykey) (d : bots) : option (list string) :=
  match d with
  | [] => None
  | (k', v') :: d' => if key_eqb k' k then Some v' else get k d'
  end.

Definition keys (d : bots) : list pykey := map fst d.
Definition values (d : bots) : list (list string) := map snd d.

(** [sorted(set(xs))] on strings. *)
Definition sorted_set (xs : list string) : list string :=
  isort String.leb (nodup string_dec xs).

Definition is_str_key (k : pykey) : bool :=
  match k with KStr _ => true | _ => false end.

Definition is_num_key (k : pykey) : bool :=
  match key_num k with Some _ => true | None => false end.

(** The order the sort uses: Python's [<=] among strings and among
    numbers; [None] first and strings last, which [sorted_items] never
    relies on. *)
Definition key_leb (a b : pykey) : bool :=
  match a, b with
  | KStr s, KStr t => String.leb s t
  | KStr _, _ => false
  | _, KStr _ => true
  | _, _ =>
      match key_num a, key_num b with
      | Some x, Some y => (x <=? y)%Z
      | None, _ => true
      | Some _, None => false
      end
  end.

Definition item_leb (a b : pykey * list string) : bool :=
  key_leb (fst a) (fst b).

(** [sorted(d.items())].  The items are pairs with pairwise different
    keys, so two items are ordered by their keys.  Strings are ordered
    among themselves, and so are numbers and booleans; any other two
    keys cannot be compared.  A comparison sort links all its items by
    comparisons, so on two or more items it raises [TypeError] exactly
    when the keys are not all strings or all numbers. *)
Definition sorted_items (d : bots) : result bots :=
  match d with
  | [] | [_] => Ok d
  | _ =>
      if forallb is_str_key (keys d) || forallb is_num_key (keys d)
      then Ok (isort item_leb d)
      else Raise TypeError
  end.

End Dict.

(** ** Events *)

Inductive stdout_line : Type :=
| FetchingEndpointList (main_url : string)
| Processing (source_type source_id endpoint_url : json)
| FoundIPv4Ranges (n : nat)
| NoIPv4RangesFound
| FailedToFetchData
| AdditionalBotsLoaded
| AdditionalBotSummary (bot_name : pykey) (n : nat)
| GeneratedSummary (output_path : string) (total_ranges : nat).

Inductive stderr_line : Type :=
| ErrorFetching (url : json)
| InvalidCIDR (cidr : json) (e : ipaddress.ValueError)
| ResponseNotAnObject
| ResponseMissingPrefixes
| ResponsePrefixesNotAList
| InvalidPrefixEntry
| InvalidIpv4PrefixFormat (cidr : json)
| CouldNotLoadAdditionalBots
| FailedToFetchMainEndpointList
| ErrorWriting (output_path : string).

(** One observable action of a run: a line on standard output, a
    diagnostic on standard error, the output file opened for writing
    (created, or cut to length zero), or the content written to it and
    the file closed.  After [FileOpened] without [FileWritten] the file
    holds some beginning of the content, possibly none of it. *)
Inductive event : Type :=
| Stdout (line : stdout_line)
| Stderr (line : stderr_line)
| FileOpened (path : string)
| FileWritten (path content : string).

(** ** The monad of the embedding: a trace and a value or an exception *)

Definition M (A : Type) : Type := list event * result A.

Definition ret {A} (a : A) : M A := ([], Ok a).

Definition bind {A B} (m : M A) (k : A -> M B) : M B :=
  match m with
  | (t, Ok a) => let (t', r) := k a in (t ++ t', r)
  | (t, Raise e) => (t, Raise e)
  end.

Definition lift {A} (r : result A) : M A := ([], r).
Definition print (line : stdout_line) : M unit := ([Stdout line], Ok tt).
Definition eprint (line : stderr_line) : M unit := ([Stderr line], Ok tt).
Definition open_file (path : string) : M unit := ([FileOpened path], Ok tt).
Definition write_file (path content : string) : M unit :=
  ([FileWritten path content], Ok tt).

Definition trace {A} (m : M A) : list event := fst m.
Definition outcome {A} (m : M A) : result A := snd m.

Declare Scope py_scope.
Delimit Scope py_scope with py.
Notation "x <- m ;; k" := (bind m (fun x => k))
  (at level 61, m at next level, right associativity) : py_scope.
Notation "m ;; k" := (bind m (fun _ => k))
  (at level 61, right associativity) : py_scope.
Local Open Scope py_scope.

(** A [for] loop that threads the variables it updates. *)
Fixpoint for_each {A S} (l : list A) (body : A -> S -> M S) (s : S) : M S :=
  match l with
  | [] => ret s
  | x :: l' => s' <- body x s ;; for_each l' body s'
  end.

(** ** The environment of a run *)

Inductive response : Type :=
| Body (document : json)
| RequestException.

(** Reading and parsing a configuration: the document, an exception
    that the [except] clause around the read catches, or one that it does
    not catch. *)
Inductive reading : Type :=
| Loaded (config : json)
| Caught
| Escapes (e : exn).

(** [f.write(content)] and the closing of the file: done, an [IOError]
    (the disk is full, say), or a [UnicodeEncodeError], which is no
    [IOError]. *)
Inductive writing : Type :=
| Written
| WriteIOError
| WriteUnicodeEncodeError.

Record world : Type := mkWorld {
  (** [requests.get(url, timeout=30, verify=True)], [raise_for_status()]
      and [response.json()]: the parsed body, or a [RequestException]. *)
  requests_get : json -> response;
  (** [(files('good_bots') / 'additional_bots.json').read_text()] and
      [json.loads]; caught are [FileNotFoundError], [ImportError] and
      [JSONDecodeError], anything else escapes (a [PermissionError], a
      [UnicodeDecodeError]) *)
  package_additional_bots : reading;
  (** [os.path.exists] *)
  path_exists : string -> bool;
  (** [json.load(open(path, 'r'))]; caught are [JSONDecodeError] and
      [IOError], anything else escapes (a [UnicodeDecodeError]) *)
  json_load_file : string -> reading;
  (** [datetime.now().strftime("%Y-%m-%d %H:%M:%S")] *)
  datetime_now : string;
  (** whether [open(path, 'w')] succeeds; if not, it raises an [IOError]
      and leaves the file as it is *)
  open_for_writing : string -> bool;
  (** what writing the content of this run to the open file at [path]
      and closing it does *)
  write_content : string -> writing;
  (** [s.title()] on a text that is not ASCII: the casing of the
      interpreter's Unicode tables *)
  unicode_title : string -> string
}.

(* ===================================================================== *)
(** * The program: [good_bots/core.py] *)
(* ===================================================================== *)

Module core.
Import PyStr PyVal.
Local Open Scope string_scope.

Definition main_url : string :=
  "https://search-engine-ip-tracker.merj.com/status".

(** [fetch_json(url)] *)
Definition fetch_json (w : world) (url : json) : M json :=
  match requests_get w url with
  | Body document => ret document
  | RequestException => eprint (ErrorFetching url) ;; ret JNull
  end.

(** [ipaddress.IPv4Network(cidr, strict=False)] on any value.  An
    integer (a boolean is one) is an address with a 32-bit mask; of any
    other value the text [str(cidr)] is parsed, and the text of a list or
    of a mapping starts with a bracket, which no address does. *)
Definition IPv4Network (cidr : json) : ipaddress.checked ipaddress.IPv4Network :=
  let of_int (z : Z) :=
    if ((z <? 0) || (ipaddress._ALL_ONES <? z))%Z
    then ipaddress.Invalid ipaddress.NotAnAddressText
    else ipaddress.Parsed
           (ipaddress.mkNetwork z ipaddress._ALL_ONES ipaddress._max_prefixlen) in
  match cidr with
  | JStr s => ipaddress.IPv4Network_of s
  | JNull => ipaddress.IPv4Network_of "None"
  | JBool b => of_int (if b then 1 else 0)%Z
  | JInt z => of_int z
  | JList _ | JDict _ => ipaddress.Invalid ipaddress.NotAnAddressText
  end.

(** [cidr_to_range(cidr)] *)
Definition cidr_to_range (cidr : json) : M (option string) :=
  match IPv4Network cidr with
  | ipaddress.Parsed network =>
      let start_ip := ipaddress.str_address (ipaddress.network_address network) in
      let end_ip := ipaddress.str_address (ipaddress.broadcast_address network) in
      ret (Some (start_ip ++ "-" ++ end_ip))
  | ipaddress.Invalid e =>
      eprint (InvalidCIDR cidr e) ;; ret None
  end.

(** The body of the loop of [extract_ipv4_addresses]. *)
Definition extract_prefix (prefix : json) (ipv4_ranges : list string)
  : M (list string) :=
  match prefix with
  | JDict fields =>
      match lookup "ipv4Prefix" fields with
      | Some cidr =>
          match cidr with
          | JStr _ =>
              ip_range <- cidr_to_range cidr ;;
              match ip_range with
              | Some r =>
                  if is_empty r then ret ipv4_ranges
                  else ret (ipv4_ranges ++ [r])%list
              | None => ret ipv4_ranges
              end
          | _ => eprint (InvalidIpv4PrefixFormat cidr) ;; ret ipv4_ranges
          end
      | None => ret ipv4_ranges
      end
  | _ => eprint InvalidPrefixEntry ;; ret ipv4_ranges
  end.

(** [extract_ipv4_addresses(data)] *)
Definition extract_ipv4_addresses (data : json) : M (list string) :=
  let ipv4_ranges : list string := [] in
  match data with
  | JDict fields =>
      match lookup "prefixes" fields with
      | None => eprint ResponseMissingPrefixes ;; ret ipv4_ranges
      | Some (JList prefixes) => for_each prefixes extract_prefix ipv4_ranges
      | Some _ => eprint ResponsePrefixesNotAList ;; ret ipv4_ranges
      end
  | _ => eprint ResponseNotAnObject ;; ret ipv4_ranges
  end.

(** Reading a configuration file from a path: [None] is the early
    [return {}]. *)
Definition load_config_file (w : world) (config_file : string)
  : M (option json) :=
  if negb (path_exists w config_file) then ret None
  else match json_load_file w config_file with
       | Loaded config => ret (Some config)
       | Caught => eprint CouldNotLoadAdditionalBots ;; ret None
       | Escapes e => lift (Raise e)
       end.

(** Lines 82 to 111 of [load_additional_bots]: where the configuration
    comes from. *)
Definition load_config (w : world) (config_file : option string)
  : M (option json) :=
  match config_file with
  | None =>
      match package_additional_bots w with
      | Loaded config => ret (Some config)
      | Caught => load_config_file w "additional_bots.json"
      | Escapes e => lift (Raise e)
      end
  | Some path => load_config_file w path
  end.

(** The body of the inner loop: one element of [ip_ranges]. *)
Definition add_ip_range (ip_range : json) (ip_ranges : list json)
  : M (list json) :=
  is_cidr <- lift (py_in "/" ip_range) ;;
  if is_cidr then
    converted_range <- cidr_to_range ip_range ;;
    match converted_range with
    | Some r =>
        if is_empty r then ret ip_ranges
        else ret (ip_ranges ++ [JStr r])%list
    | None => ret ip_ranges
    end
  else ret (ip_ranges ++ [ip_range])%list.

Fixpoint strings_of (xs : list json) : option (list string) :=
  match xs with
  | [] => Some []
  | JStr s :: rest =>
      match strings_of rest with
      | Some ss => Some (s :: ss)
      | None => None
      end
  | _ :: _ => None
  end.

(** [sorted(set(ip_ranges))] on what [add_ip_range] collects: strings,
    and the lists and mappings that have no slash among their elements
    or keys; the latter cannot be hashed. *)
Definition sorted_set_values (ip_ranges : list json) : result (list string) :=
  match strings_of ip_ranges with
  | Some ss => Ok (Dict.sorted_set ss)
  | None => Raise TypeError
  end.

(** The body of the outer loop: one element of [additional_bots]. *)
Definition add_bot (bot : json) (additional_ranges : bots) : M bots :=
  bot_name <- lift (py_get bot "name" (JStr "Unknown Bot")) ;;
  listed <- lift (py_get bot "ip_ranges" (JList [])) ;;
  elements <- lift (py_iter listed) ;;
  ip_ranges <- for_each elements add_ip_range [] ;;
  match ip_ranges with
  | [] => ret additional_ranges
  | _ =>
      value <- lift (sorted_set_values ip_ranges) ;;
      match hashable bot_name with
      | Some key => ret (Dict.set key value additional_ranges)
      | None => lift (Raise TypeError)
      end
  end.

(** [load_additional_bots(config_file)] *)
Definition load_additional_bots (w : world) (config_file : option string)
  : M bots :=
  loaded <- load_config w config_file ;;
  match loaded with
  | None => ret []
  | Some config =>
      listed <- lift (py_get config "additional_bots" (JList [])) ;;
      entries <- lift (py_iter listed) ;;
      for_each entries add_bot []
  end.

(** [s.title()]: the ASCII casing on ASCII text, the world's on any
    other. *)
Definition str_title (w : world) (s : string) : string :=
  if isascii s then title s else unicode_title w s.

(** Lines 155 to 171 and 177 to 180 of the loop of [generate_bot_ips]:
    what one entry of the index yields, the bot name and the ranges
    extracted from its document, if any. *)
Definition fetch_source (w : world) (item : json)
  : M (option (string * list string)) :=
  has_source <- lift (py_in "source" item) ;;
  if negb has_source then ret None else
  source <- lift (py_getitem item "source") ;;
  has_url <- lift (py_in "url" source) ;;
  if negb has_url then ret None else
  endpoint_url <- lift (py_getitem source "url") ;;
  source_id <- lift (py_get source "id" (JStr "unknown")) ;;
  source_type <- lift (py_get source "type" (JStr "unknown")) ;;
  print (Processing source_type source_id endpoint_url) ;;
  endpoint_data <- fetch_json w endpoint_url ;;
  if truthy endpoint_data then
    ipv4_ranges <- extract_ipv4_addresses endpoint_data ;;
    match ipv4_ranges with
    | _ :: _ =>
        match source_type, source_id with
        | JStr ty, JStr id =>
            ret (Some (str_title w ty ++ " - "
                       ++ str_title w (replace "-" " " id),
                       ipv4_ranges))
        | _, _ => lift (Raise AttributeError)
        end
    | [] => print NoIPv4RangesFound ;; ret None
    end
  else print FailedToFetchData ;; ret None.

(** The body of the loop of [generate_bot_ips]; lines 172 to 176 store
    what the entry yielded. *)
Definition process_item (w : world) (item : json) (acc : bots * nat)
  : M (bots * nat) :=
  let (bot_ip_ranges, total_ranges) := acc in
  found <- fetch_source w item ;;
  match found with
  | Some (bot_name, ipv4_ranges) =>
      let bot_ip_ranges :=
        Dict.set (KStr bot_name) (Dict.sorted_set ipv4_ranges) bot_ip_ranges in
      let total_ranges := (total_ranges + List.length ipv4_ranges)%nat in
      print (FoundIPv4Ranges (List.length ipv4_ranges)) ;;
      ret (bot_ip_ranges, total_ranges)
  | None => ret (bot_ip_ranges, total_ranges)
  end.

(** ** Rendering, lines 188 to 207 *)

Definition header (current_time : string) : string :=
  "# Bot IP addresses for django-turnstile-site-protect" ++ nl ++
  "# Generated on " ++ current_time ++ nl ++
  "# Source: https://search-engine-ip-tracker.merj.com/status" ++ nl ++
  nl ++
  "GOOD_BOTS = [" ++ nl.

Definition range_line (ip_range : string) : string :=
  "    '" ++ ip_range ++ "'," ++ nl.

Definition bot_section (item : pykey * list string) : string :=
  "    # " ++ str_key (fst item) ++ nl ++
  String.concat EmptyString (map range_line (snd item)) ++
  nl.

Definition footer (total_ranges : nat) : string :=
  "]" ++ nl ++
  nl ++
  "# Total IP ranges: " ++ str_nat total_ranges ++ nl.

Definition output_content (current_time : string) (sections : bots)
    (total_ranges : nat) : string :=
  header current_time ++
  String.concat EmptyString (map bot_section sections) ++
  footer total_ranges.

Definition sum_lengths (d : bots) : nat :=
  list_sum (map (@List.length string) (Dict.values d)).

(** Lines 142 to 186 of [generate_bot_ips]: from the fetched index to
    the final mapping and the running total.  [None] is the early
    [return 1]. *)
Definition aggregate (w : world) (main_data : json) : M (option (bots * nat)) :=
  missing <- (if negb (truthy main_data) then ret true
              else has_data <- lift (py_in "data" main_data) ;;
                   ret (negb has_data)) ;;
  if (missing : bool) then
    eprint FailedToFetchMainEndpointList ;; ret None
  else
    additional_bots <- load_additional_bots w None ;;
    let bot_ip_ranges := additional_bots in
    let total_ranges := sum_lengths additional_bots in
    data <- lift (py_getitem main_data "data") ;;
    items <- lift (py_iter data) ;;
    final <- for_each items (process_item w) (bot_ip_ranges, total_ranges) ;;
    (match additional_bots with
     | [] => ret tt
     | _ =>
         print AdditionalBotsLoaded ;;
         for_each additional_bots
           (fun item _ =>
              print (AdditionalBotSummary (fst item) (List.length (snd item))))
           tt
     end) ;;
    ret (Some final).

(** Lines 188 to 224 of [generate_bot_ips]: rendering and writing.  The
    [try] catches an [IOError] of [open], of [f.write] and of the closing
    of the file; a [UnicodeEncodeError] of [f.write] escapes it.  The
    summary lines are printed inside the [try]; like every [print] they
    are taken to succeed. *)
Definition render_and_write (w : world) (output_path : string)
    (bot_ip_ranges : bots) (total_ranges : nat) : M Z :=
  let current_time := datetime_now w in
  sections <- lift (Dict.sorted_items bot_ip_ranges) ;;
  let content := output_content current_time sections total_ranges in
  if open_for_writing w output_path then
    open_file output_path ;;
    match write_content w output_path with
    | Written =>
        write_file output_path content ;;
        print (GeneratedSummary output_path total_ranges) ;;
        ret 0%Z
    | WriteIOError => eprint (ErrorWriting output_path) ;; ret 1%Z
    | WriteUnicodeEncodeError => lift (Raise UnicodeError)
    end
  else
    eprint (ErrorWriting output_path) ;; ret 1%Z.

(** [generate_bot_ips(output_path)] *)
Definition generate_bot_ips (w : world) (output_path : option string)
  : M Z :=
  let output_path :=
    match output_path with Some p => p | None => "bot_ips_config.py" end in
  print (FetchingEndpointList main_url) ;;
  main_data <- fetch_json w (JStr main_url) ;;
  collected <- aggregate w main_data ;;
  match collected with
  | None => ret 1%Z
  | Some (bot_ip_ranges, total_ranges) =>
      render_and_write w output_path bot_ip_ranges total_ranges
  end.

End core.

(* ===================================================================== *)
(** * Vocabulary of the statements *)
(* ===================================================================== *)

(** A computation is [quiet] when it touches no file: it opens none for
    writing and writes none. *)
Definition is_write (e : event) : bool :=
  match e with FileOpened _ | FileWritten _ _ => true | _ => false end.

Definition quiet {A} (m : M A) : Prop :=
  Forall (fun e => is_write e = false) (trace m).

(** The files a run writes, in order. *)
Fixpoint files_written (t : list event) : list (string * string) :=
  match t with
  | [] => []
  | FileWritten path content :: t' => (path, content) :: files_written t'
  | _ :: t' => files_written t'
  end.

(** The files a run opens for writing, in order. *)
Fixpoint files_opened (t : list event) : list string :=
  match t with
  | [] => []
  | FileOpened path :: t' => path :: files_opened t'
  | _ :: t' => files_opened t'
  end.

(** Python's [<] and [<=] on strings. *)
Module StrOrderDefs.
Definition lt (a b : string) : Prop := String.ltb a b = true.
Definition le (a b : string) : Prop := String.leb a b = true.
End StrOrderDefs.

(** [isinstance(v, dict)] and [isinstance(v, list)]. *)
Definition is_dict (v : json) : bool :=
  match v with JDict _ => true | _ => false end.

Definition is_list (v : json) : bool :=
  match v with JList _ => true | _ => false end.

(** The example documents of the specification. *)
Definition example_prefix_document : json :=
  JDict [("prefixes",
          JList [ JDict [("ipv4Prefix", JStr "192.0.2.0/24")];
                  JDict [("ipv4Prefix", JStr "2001:db8::/32")];
                  JDict [("invalid", JStr "x")];
                  JStr "not_a_dict" ])].


(** A range list is [ascending] when each entry is strictly below the
    entries after it: sorted, with no entry twice. *)
Definition ascending (ranges : list string) : Prop :=
  StronglySorted StrOrderDefs.lt ranges.

(** Keys that are equal for Python have one representative. *)
Definition canon (k : pykey) : pykey :=
  match k with
  | KBool b => KInt (if b then 1 else 0)%Z
  | _ => k
  end.

Definition distinct_keys (d : bots) : Prop := NoDup (map canon (Dict.keys d)).


(** What [fetch_json] returns for a URL: the document, or [None]. *)
Definition fetched (w : world) (url : json) : json :=
  match requests_get w url with
  | Body document => document
  | RequestException => JNull
  end.

(** The path [generate_bot_ips] writes to. *)
Definition target (output_path : option string) : string :=
  match output_path with Some p => p | None => "bot_ips_config.py" end.

(** A mapping is [tidy] when no key occurs twice and every range list is
    ascending. *)
Definition tidy (d : bots) : Prop :=
  distinct_keys d /\ Forall ascending (Dict.values d).

(** The quoted range lines of an output file: the lines that start with
    four blanks and a quote. *)
Definition range_lines (content : string) : nat :=
  List.length
    (filter (String.prefix "    '") (PyStr.split (ascii_of_nat 10) content)).

(** An index document has a [data] list when it is a mapping whose
    [data] field is a list. *)
Definition lacks_data_list (document : json) : bool :=
  match document with
  | JDict fields =>
      match PyVal.lookup "data" fields with
      | Some (JList _) => false
      | _ => true
      end
  | _ => true
  end.

(** The first claim, as the specification words it: a run whose index
    document is absent or lacks a [data] list prints the diagnostic,
    returns 1 and leaves the output file as it is: it neither opens it
    for writing nor writes to it. *)
Definition index_without_data_list_is_fatal
    (w : world) (output_path : option string) : Prop :=
  lacks_data_list (fetched w (JStr core.main_url)) = true ->
  let run := core.generate_bot_ips w output_path in
  outcome run = Ok 1%Z
  /\ In (Stderr FailedToFetchMainEndpointList) (trace run)
  /\ files_opened (trace run) = []
  /\ files_written (trace run) = [].

(** ** Example worlds *)

(** A world with no packaged or local configuration, whose every file can
    be written, and which serves the given documents.  The example worlds
    hold ASCII text only, so what they take for [unicode_title] does not
    matter. *)
Definition serving (pages : list (string * json)) : world :=
  mkWorld
    (fun url =>
       match url with
       | JStr u =>
           match PyVal.lookup u pages with
           | Some document => Body document
           | None => RequestException
           end
       | _ => RequestException
       end)
    Caught (fun _ => false) (fun _ => Caught) "2024-01-01 00:00:00"
    (fun _ => true) (fun _ => Written) (fun s => s).

Definition source_entry (type id url : string) : json :=
  JDict [("source", JDict [("id", JStr id); ("type", JStr type); ("url", JStr url)])].

Definition prefix_document (cidrs : list string) : json :=
  JDict [("prefixes", JList (map (fun c => JDict [("ipv4Prefix", JStr c)]) cidrs))].

(** The index has a [data] field that is an empty mapping, not a list. *)
Definition world_data_not_a_list : world :=
  serving [(core.main_url, JDict [("data", JDict [])])].

(** One source lists the same prefix twice. *)
Definition world_duplicate_prefix : world :=
  serving [ (core.main_url,
             JDict [("data", JList [source_entry "bot" "test" "https://a.example/ips.json"])]);
            ("https://a.example/ips.json",
             prefix_document ["192.0.2.0/24"; "192.0.2.0/24"]) ].

(** Two sources have the same type and id, hence the same bot name. *)
Definition world_same_name : world :=
  serving [ (core.main_url,
             JDict [("data", JList [ source_entry "bot" "test" "https://a.example/ips.json";
                                     source_entry "bot" "test" "https://b.example/ips.json" ])]);
            ("https://a.example/ips.json", prefix_document ["192.0.2.0/24"]);
            ("https://b.example/ips.json", prefix_document ["198.51.100.0/24"]) ].

(** The same world at another time of day. *)
Definition at_time (w : world) (current_time : string) : world :=
  mkWorld (requests_get w) (package_additional_bots w) (path_exists w)
          (json_load_file w) current_time (open_for_writing w)
          (write_content w) (unicode_title w).

(** The output file around its timestamp: the text up to the timestamp,
    and the text from the end of the timestamp line on. *)
Definition before_timestamp : string :=
  ("# Bot IP addresses for django-turnstile-site-protect" ++ PyStr.nl ++
   "# Generated on ")%string.

Definition after_timestamp (sections : bots) (total_ranges : nat) : string :=
  (PyStr.nl ++
   "# Source: https://search-engine-ip-tracker.merj.com/status" ++ PyStr.nl ++
   PyStr.nl ++
   "GOOD_BOTS = [" ++ PyStr.nl ++
   String.concat EmptyString (map core.bot_section sections) ++
   core.footer total_ranges)%string.

(** What a run prints, the content of written files left out. *)
Fixpoint printed (t : list event) : list event :=
  match t with
  | [] => []
  | FileWritten path _ :: t' => FileWritten path EmptyString :: printed t'
  | e :: t' => e :: printed t'
  end.





(** One source cannot be fetched, the other can. *)
Definition world_one_source_down : world :=
  serving [ (core.main_url,
             JDict [("data", JList [ source_entry "bot" "down" "https://down.example/ips.json";
                                     source_entry "bot" "up" "https://up.example/ips.json" ])]);
            ("https://up.example/ips.json", prefix_document ["192.0.2.0/24"]) ].








(** ** The additional-bots configuration, as the specification words it *)

(** The documented shape: a mapping whose [additional_bots], if present,
    is a list of mappings; the [name] of each, if present, is a string (or
    another scalar), and its [ip_ranges], if present, is a list of
    strings.  [decode_config] reads such a document as the list of its
    entries, each a name and a list of texts. *)
Definition decode_name (fields : list (string * json)) : option pykey :=
  match PyVal.lookup "name" fields with
  | None => Some (KStr "Unknown Bot")
  | Some v => PyVal.hashable v
  end.

Definition decode_ranges (fields : list (string * json)) : option (list string) :=
  match PyVal.lookup "ip_ranges" fields with
  | None => Some []
  | Some (JList elements) => core.strings_of elements
  | Some _ => None
  end.

Definition decode_bot (bot : json) : option (pykey * list string) :=
  match bot with
  | JDict fields =>
      match decode_name fields, decode_ranges fields with
      | Some name, Some ranges => Some (name, ranges)
      | _, _ => None
      end
  | _ => None
  end.

Fixpoint decode_all (entries : list json) : option (list (pykey * list string)) :=
  match entries with
  | [] => Some []
  | bot :: rest =>
      match decode_bot bot, decode_all rest with
      | Some e, Some es => Some (e :: es)
      | _, _ => None
      end
  end.

Definition decode_config (config : json) : option (list (pykey * list string)) :=
  match config with
  | JDict fields =>
      match PyVal.lookup "additional_bots" fields with
      | None => Some []
      | Some (JList entries) => decode_all entries
      | Some _ => None
      end
  | _ => None
  end.

(** An element with a slash goes through the range normaliser and is
    dropped when that fails; any other element is kept as it is. *)
Definition normalize_range (ip_range : string) : list string :=
  if PyStr.contains "/" ip_range then
    match outcome (core.cidr_to_range (JStr ip_range)) with
    | Ok (Some converted) => [converted]
    | _ => []
    end
  else [ip_range].

Definition normalized (ip_ranges : list string) : list string :=
  flat_map normalize_range ip_ranges.

(** A bot whose list ends up empty is left out; any other bot is stored
    under its name with its ranges deduplicated and sorted. *)
Definition spec_add_bot (m : bots) (entry : pykey * list string) : bots :=
  match normalized (snd entry) with
  | [] => m
  | ranges => Dict.set (fst entry) (Dict.sorted_set ranges) m
  end.

Definition additional_bots_spec (entries : list (pykey * list string)) : bots :=
  fold_left spec_add_bot entries [].

(** A configuration with a CIDR, a literal range repeated, an IPv6 CIDR,
    and a bot with IPv6 ranges only. *)
Definition example_config : json :=
  JDict [("additional_bots",
          JList [ JDict [("name", JStr "test_bot");
                         ("ip_ranges", JList [ JStr "192.0.2.0/24"; JStr "10.0.0.1";
                                               JStr "2001:db8::/32"; JStr "10.0.0.1" ])];
                  JDict [("name", JStr "v6_only");
                         ("ip_ranges", JList [JStr "2001:db8::/32"])] ])].

(** No network; the packaged configuration is [example_config]. *)
Definition world_with_example_config : world :=
  mkWorld (fun _ => RequestException) (Loaded example_config)
          (fun _ => false) (fun _ => Caught) "2024-01-01 00:00:00"
          (fun _ => true) (fun _ => Written) (fun s => s).

(* ===================================================================== *)
(** * Further vocabulary: the rest of the package *)
(* ===================================================================== *)

(** A computation [emits_only] events of a kind when every event of its
    trace is of that kind. *)
Definition emits_only (P : event -> Prop) {A} (m : M A) : Prop :=
  Forall P (trace m).

(** The [routine] events: progress lines and the diagnostics of single
    sources and entries.  The two fatal diagnostics and the opening and
    the writing of the file are not. *)
Definition routine (e : event) : Prop :=
  match e with
  | FileOpened _ => False
  | FileWritten _ _ => False
  | Stderr FailedToFetchMainEndpointList => False
  | Stderr (ErrorWriting _) => False
  | _ => True
  end.

(** The name line 169 gives a source of the given type and id. *)
Definition display_name (w : world) (source_type source_id : string) : string :=
  (core.str_title w source_type ++ " - "
   ++ core.str_title w (PyStr.replace "-" " " source_id))%string.

(** [s.lower()] for an ASCII text [s]. *)
Fixpoint lower (s : string) : string :=
  match s with
  | EmptyString => EmptyString
  | String c s' => String (PyStr.to_lower c) (lower s')
  end.

(** What a source of the index yields when it yields something: its bot
    name and the ranges extracted from its document. *)
Definition yields (w : world) (item : json) : option (string * list string) :=
  match outcome (core.fetch_source w item) with
  | Ok (Some found) => Some found
  | _ => None
  end.

(** The names the sources of a list yield, in order. *)
Definition source_names (w : world) (items : list json) : list pykey :=
  flat_map (fun item => match yields w item with
                        | Some (name, _) => [KStr name]
                        | None => []
                        end) items.

(** The index is served, no source is listed, and no file can be
    written. *)
Definition world_read_only : world :=
  mkWorld (fun _ => Body (JDict [("data", JList [])])) Caught
          (fun _ => false) (fun _ => Caught) "2024-01-01 00:00:00"
          (fun _ => false) (fun _ => Written) (fun s => s).

(** The index is served and no source is listed; the output file can be
    opened, and writing to it fails with an [IOError]. *)
Definition world_disk_full : world :=
  mkWorld (fun _ => Body (JDict [("data", JList [])])) Caught
          (fun _ => false) (fun _ => Caught) "2024-01-01 00:00:00"
          (fun _ => true) (fun _ => WriteIOError) (fun s => s).

(** One prefix of a source document, as the extractor treats it: the
    ranges it contributes and the diagnostics it causes. *)
Definition prefix_ranges (prefix : json) : list string :=
  match prefix with
  | JDict fields =>
      match PyVal.lookup "ipv4Prefix" fields with
      | Some (JStr cidr) =>
          match ipaddress.IPv4Network_of cidr with
          | ipaddress.Parsed network =>
              [(ipaddress.str_address (ipaddress.network_address network)
                ++ "-"
                ++ ipaddress.str_address (ipaddress.broadcast_address network))%string]
          | ipaddress.Invalid _ => []
          end
      | _ => []
      end
  | _ => []
  end.

Definition prefix_diagnostics (prefix : json) : list event :=
  match prefix with
  | JDict fields =>
      match PyVal.lookup "ipv4Prefix" fields with
      | Some (JStr cidr) =>
          match ipaddress.IPv4Network_of cidr with
          | ipaddress.Parsed _ => []
          | ipaddress.Invalid e => [Stderr (InvalidCIDR (JStr cidr) e)]
          end
      | Some cidr => [Stderr (InvalidIpv4PrefixFormat cidr)]
      | None => []
      end
  | _ => [Stderr InvalidPrefixEntry]
  end.

(** Two sources that list no prefix twice, and a bot of the
    configuration under another name. *)
Definition world_clean : world :=
  mkWorld
    (requests_get
       (serving [ (core.main_url,
                   JDict [("data", JList [ source_entry "search" "alpha-bot" "https://a.example/ips.json";
                                           source_entry "search" "beta" "https://b.example/ips.json" ])]);
                  ("https://a.example/ips.json",
                   prefix_document ["192.0.2.0/24"; "198.51.100.0/24"]);
                  ("https://b.example/ips.json", prefix_document ["203.0.113.0/24"]) ]))
    (Loaded (JDict [("additional_bots",
                     JList [JDict [("name", JStr "mine");
                                   ("ip_ranges", JList [JStr "10.0.0.1"])]])]))
    (fun _ => false) (fun _ => Caught) "2024-01-01 00:00:00" (fun _ => true)
    (fun _ => Written) (fun s => s).

(** ** The two command-line front ends: [good_bots/cli.py] and
    [good_bots/__main__.py] *)

(** What a front end adds to the events of [core.py]. *)
Inductive shell_event : Type :=
| OfCore (e : event)
| ParserMessage
| PathTraversalDetected
| MakeDirsCalled (path : string)
| GeneratingConfiguration
| ConfigurationGenerated
| FailedToGenerateConfiguration.

(** How the process ends: with an exit code, or with an exception that
    nothing catches. *)
Inductive finished : Type :=
| Exit (code : Z)
| Uncaught (e : exn).

(** What [parser.parse_args()] does with the command line: it returns
    the arguments, or it prints a message of its own (the help text, or
    the usage and an error) and raises [SystemExit] with a code: 0 after
    [--help], 2 after a usage error. *)
Inductive parsed (A : Type) : Type :=
| Namespace (value : A)
| SystemExit (code : Z).
Arguments Namespace {A} value.
Arguments SystemExit {A} code.

(** The command line and the part of [os] and [os.path] that the front
    ends use. *)
Record os_world : Type := mkOs {
  (** [parse_args()] of the parser of [cli.py], on the command line of
      this run: [args.path], [None] without [--path] *)
  parse_path : parsed (option string);
  (** [parse_args()] of the parser of [__main__.py]: [args.output], the
      default [bot_ips_config.py] without [--output] *)
  parse_output : parsed string;
  (** [os.path.realpath(os.path.expanduser(path))] *)
  resolve : string -> string;
  (** whether [os.makedirs(path, exist_ok=True, mode=0o755)] succeeds *)
  makedirs : string -> bool
}.

Module posixpath.

Fixpoint ends_with_sep (path : string) : bool :=
  match path with
  | EmptyString => false
  | String c EmptyString => Ascii.eqb c "/"
  | String _ rest => ends_with_sep rest
  end.

(** [os.path.join(path, b)] for a [b] that does not start with a slash. *)
Definition join (path b : string) : string :=
  if PyStr.is_empty path || ends_with_sep path then (path ++ b)%string
  else (path ++ "/" ++ b)%string.

End posixpath.

Module cli.

Definition output_filename : string := "bot_ips_config.py".

(** Lines 25 to 46 of [main()], with [args.path] as argument. *)
Definition main_with (os : os_world) (w : world) (path : option string)
  : list shell_event * finished :=
  let run (before : list shell_event) (output_path : string) :=
    let (t, r) := core.generate_bot_ips w (Some output_path) in
    ((before ++ map OfCore t)%list,
     match r with Ok status => Exit status | Raise e => Uncaught e end) in
  match path with
  | Some given =>
      if PyStr.is_empty given then run [] output_filename
      else if PyStr.contains ".." given then ([PathTraversalDetected], Exit 1)
      else
        let safe_path := resolve os given in
        if makedirs os safe_path then
          run [MakeDirsCalled safe_path] (posixpath.join safe_path output_filename)
        else ([MakeDirsCalled safe_path], Uncaught OSError)
  | None => run [] output_filename
  end.

(** [main()]; [sys.exit(main())] makes the returned status the exit
    code, and a [SystemExit] of the parser ends the process with the
    parser's code. *)
Definition main (os : os_world) (w : world) : list shell_event * finished :=
  match parse_path os with
  | SystemExit code => ([ParserMessage], Exit code)
  | Namespace path => main_with os w path
  end.

End cli.

Module dunder_main.

(** Lines 23 to 30 of [main()] of [__main__.py], with [args.output] as
    argument; falling off the end of the module is exit code 0. *)
Definition main_with (w : world) (output : string) : list shell_event * finished :=
  let (t, r) := core.generate_bot_ips w (Some output) in
  let started := (GeneratingConfiguration :: map OfCore t)%list in
  match r with
  | Ok result =>
      if (result =? 0)%Z then ((started ++ [ConfigurationGenerated])%list, Exit 0)
      else ((started ++ [FailedToGenerateConfiguration])%list, Exit 1)
  | Raise e => (started, Uncaught e)
  end.

(** [main()] of [__main__.py]. *)
Definition main (os : os_world) (w : world) : list shell_event * finished :=
  match parse_output os with
  | SystemExit code => ([ParserMessage], Exit code)
  | Namespace output => main_with w output
  end.

End dunder_main.






(** The address a CIDR text writes before its slash, as a number. *)
Definition written_address (cidr : string) : ipaddress.checked Z :=
  ipaddress._ip_int_from_string (hd EmptyString (PyStr.split "/" cidr)).

(** A loaded mapping written back as a configuration document. *)
Definition encode_key (k : pykey) : json :=
  match k with
  | KNone => JNull
  | KBool b => JBool b
  | KInt z => JInt z
  | KStr s => JStr s
  end.

Definition config_of (m : bots) : json :=
  JDict [("additional_bots",
          JList (map (fun entry =>
                        JDict [("name", encode_key (fst entry));
                               ("ip_ranges", JList (map JStr (snd entry)))])
                     m))].

(** A range text is [slash_free] when the loader would not take it for a
    CIDR. *)
Definition slash_free (r : string) : Prop := PyStr.contains "/" r = false.

(** A range list is [settled] when the loader has nothing left to do on
    it: not empty, ascending, and free of slashes. *)
Definition settled (v : list string) : Prop :=
  v <> [] /\ ascending v /\ Forall slash_free v.

(** No network; the packaged configuration is [config]. *)
Definition world_with_config (config : json) : world :=
  mkWorld (fun _ => RequestException) (Loaded config)
          (fun _ => false) (fun _ => Caught) "2024-01-01 00:00:00"
          (fun _ => true) (fun _ => Written) (fun s => s).

(** The index is served; reading the packaged configuration raises a
    [PermissionError], which [load_additional_bots] does not catch. *)
Definition world_package_unreadable : world :=
  mkWorld (requests_get world_one_source_down) (Escapes OSError)
          (fun _ => false) (fun _ => Caught) "2024-01-01 00:00:00"
          (fun _ => true) (fun _ => Written) (fun s => s).

(* ===================================================================== *)
(** * The output file, read as text *)
(* ===================================================================== *)

(** The lines of a text, [text.split("\n")], and the text of a list of
    lines, each followed by a line feed. *)
Definition lines (text : string) : list string :=
  PyStr.split (ascii_of_nat 10) text.

Definition unlines (ls : list string) : string :=
  String.concat EmptyString (map (fun l => (l ++ PyStr.nl)%string) ls).

(** A text is [one_line] when it holds no line feed. *)
Definition one_line (s : string) : Prop :=
  PyStr.mem (ascii_of_nat 10) s = false.

(** The layout of the output file, line by line: five lines of header;
    for every bot a comment with its name, its ranges, quoted and
    followed by a comma, and an empty line; the closing bracket, an empty
    line and the comment with the total. *)
Definition header_lines (current_time : string) : list string :=
  [ "# Bot IP addresses for django-turnstile-site-protect";
    ("# Generated on " ++ current_time)%string;
    "# Source: https://search-engine-ip-tracker.merj.com/status";
    EmptyString;
    "GOOD_BOTS = [" ].

Definition quoted (ip_range : string) : string :=
  ("    '" ++ ip_range ++ "',")%string.

Definition section_lines (item : pykey * list string) : list string :=
  ("    # " ++ PyVal.str_key (fst item))%string
  :: (map quoted (snd item) ++ [EmptyString])%list.

Definition footer_lines (total_ranges : nat) : list string :=
  [ "]"; EmptyString;
    ("# Total IP ranges: " ++ PyStr.str_nat total_ranges)%string ].

Definition file_lines (current_time : string) (sections : bots)
    (total_ranges : nat) : list string :=
  (header_lines current_time ++ flat_map section_lines sections
   ++ footer_lines total_ranges)%list.

(** [strip_prefix p s] is [s] without its prefix [p], and
    [strip_suffix q s] is [s] without its suffix [q]. *)
Fixpoint strip_prefix (p s : string) : option string :=
  match p with
  | EmptyString => Some s
  | String a p' =>
      match s with
      | String b s' => if Ascii.eqb a b then strip_prefix p' s' else None
      | EmptyString => None
      end
  end.

Fixpoint strip_suffix (q s : string) : option string :=
  if String.eqb s q then Some EmptyString
  else match s with
       | EmptyString => None
       | String c s' =>
           match strip_suffix q s' with
           | Some r => Some (String c r)
           | None => None
           end
       end.

(** What a line of the file says: the name of a bot, a range, or
    neither. *)
Inductive file_line : Type :=
| BotComment (name : string)
| QuotedRange (ip_range : string)
| OtherLine.

Definition read_line (line : string) : file_line :=
  match strip_prefix "    # " line with
  | Some name => BotComment name
  | None =>
      match strip_prefix "    '" line with
      | Some rest =>
          match strip_suffix "'," rest with
          | Some ip_range => QuotedRange ip_range
          | None => OtherLine
          end
      | None => OtherLine
      end
  end.

(** Reading the lines from the last one up: the ranges that still wait
    for the comment above them, and the sections read so far. *)
Fixpoint read_lines (ls : list string)
  : list string * list (string * list string) :=
  match ls with
  | [] => ([], [])
  | line :: rest =>
      let (pending, sections) := read_lines rest in
      match read_line line with
      | QuotedRange ip_range => (ip_range :: pending, sections)
      | BotComment name => ([], (name, pending) :: sections)
      | OtherLine => (pending, sections)
      end
  end.

(** The sections a reader finds in an output file, from top to bottom:
    every bot comment with the quoted ranges below it. *)
Definition read_sections (content : string) : list (string * list string) :=
  snd (read_lines (lines content)).

(** The number that the last [# Total IP ranges:] comment of a file
    states, as it is written. *)
Fixpoint last_total (ls : list string) : option string :=
  match ls with
  | [] => None
  | line :: rest =>
      match last_total rest with
      | Some n => Some n
      | None => strip_prefix "# Total IP ranges: " line
      end
  end.

Definition total_comment (content : string) : option string :=
  last_total (lines content).

(** A mapping is [plain] when no name and no range of it holds a line
    feed; its sections are then [shown] in the file under the text of
    their names. *)
Definition plain (sections : bots) : Prop :=
  Forall (fun item => one_line (PyVal.str_key (fst item))
                      /\ Forall one_line (snd item)) sections.

Definition shown (sections : bots) : list (string * list string) :=
  map (fun item => (PyVal.str_key (fst item), snd item)) sections.

(** How many ranges a source of the index adds to the counter. *)
Definition yield_count (w : world) (item : json) : nat :=
  match outcome (core.fetch_source w item) with
  | Ok (Some (_, ipv4_ranges)) => List.length ipv4_ranges
  | _ => 0
  end.

(** Two sources in descending order of name; the first lists its
    prefixes in descending order and one of them twice. *)
Definition world_unsorted : world :=
  serving [ (core.main_url,
             JDict [("data", JList [ source_entry "search" "zeta" "https://z.example/ips.json";
                                     source_entry "search" "alpha" "https://a.example/ips.json" ])]);
            ("https://z.example/ips.json",
             prefix_document ["203.0.113.0/24"; "192.0.2.0/24"; "203.0.113.0/24"]);
            ("https://a.example/ips.json", prefix_document ["198.51.100.0/24"]) ].

(* ===================================================================== *)
(** * General lemmas *)
(* ===================================================================== *)

(** ** The monad *)

Lemma outcome_bind {A B} (m : M A) (k : A -> M B) :
  outcome (bind m k) =
  match outcome m with Ok a => outcome (k a) | Raise e => Raise e end.
Proof.
  destruct m as [t [a|e]]; cbn; [|reflexivity].
  destruct (k a); reflexivity.
Qed.

Lemma trace_bind {A B} (m : M A) (k : A -> M B) :
  trace (bind m k) =
  trace m ++ match outcome m with Ok a => trace (k a) | Raise _ => [] end.
Proof.
  destruct m as [t [a|e]]; cbn; [|now rewrite app_nil_r].
  destruct (k a); reflexivity.
Qed.

Lemma bind_ret_l {A B} (a : A) (k : A -> M B) : bind (ret a) k = k a.
Proof. unfold bind, ret. destruct (k a); reflexivity. Qed.

Lemma bind_lift_ok {A B} (a : A) (k : A -> M B) : bind (lift (Ok a)) k = k a.
Proof. apply bind_ret_l. Qed.

Lemma M_eq {A} (m : M A) : m = (trace m, outcome m).
Proof. destruct m; reflexivity. Qed.

Lemma quiet_bind {A B} (m : M A) (k : A -> M B) :
  quiet m -> (forall a, quiet (k a)) -> quiet (bind m k).
Proof.
  unfold quiet. intros Hm Hk. rewrite trace_bind.
  apply Forall_app. split; [exact Hm|].
  destruct (outcome m); [apply Hk|constructor].
Qed.

Lemma quiet_ret {A} (a : A) : quiet (ret a).
Proof. constructor. Qed.

Lemma quiet_lift {A} (r : result A) : quiet (lift r).
Proof. constructor. Qed.

Lemma quiet_print line : quiet (print line).
Proof. repeat constructor. Qed.

Lemma quiet_eprint line : quiet (eprint line).
Proof. repeat constructor. Qed.

Lemma quiet_for_each {A S} (body : A -> S -> M S) (l : list A) :
  (forall x s, quiet (body x s)) -> forall s, quiet (for_each l body s).
Proof.
  intros Hb. induction l as [|x l IH]; intros s; cbn.
  - apply quiet_ret.
  - apply quiet_bind; [apply Hb|exact IH].
Qed.

Create HintDb quiet.
#[export] Hint Resolve quiet_ret quiet_lift quiet_print quiet_eprint : quiet.

Ltac quiet_tac :=
  repeat first
    [ solve [auto with quiet]
    | apply quiet_bind; [|intros ?]
    | match goal with
      | |- quiet (match ?x with _ => _ end) => destruct x
      | |- quiet (if ?x then _ else _) => destruct x
      end ].


(** ** The order on strings *)

Module StrOrder.
Import StrOrderDefs.

Lemma ascii_compare_trans a b c :
  Ascii.compare a b = Lt -> Ascii.compare b c = Lt -> Ascii.compare a c = Lt.
Proof.
  unfold Ascii.compare. rewrite !N.compare_lt_iff. lia.
Qed.

Lemma compare_refl s : String.compare s s = Eq.
Proof.
  pose proof (String.compare_antisym s s) as H.
  destruct (String.compare s s); cbn in H; congruence.
Qed.

Lemma compare_trans a : forall b c,
  String.compare a b = Lt -> String.compare b c = Lt -> String.compare a c = Lt.
Proof.
  induction a as [|x a IH]; intros [|y b] [|z c]; cbn; try congruence.
  destruct (Ascii.compare x y) eqn:Exy; try congruence;
    destruct (Ascii.compare y z) eqn:Eyz; try congruence; intros H1 H2.
  - apply Ascii.compare_eq_iff in Exy, Eyz. subst.
    rewrite (proj2 (N.compare_eq_iff _ _) eq_refl : Ascii.compare z z = Eq).
    eauto.
  - apply Ascii.compare_eq_iff in Exy. subst. now rewrite Eyz.
  - apply Ascii.compare_eq_iff in Eyz. subst. now rewrite Exy.
  - now rewrite (ascii_compare_trans _ _ _ Exy Eyz).
Qed.

Lemma lt_iff a b : lt a b <-> String.compare a b = Lt.
Proof.
  unfold lt, String.ltb. destruct (String.compare a b); split; congruence.
Qed.

Lemma le_iff a b : le a b <-> lt a b \/ a = b.
Proof.
  unfold le, lt, String.leb, String.ltb.
  destruct (String.compare a b) eqn:E; split; intros H; auto; try congruence.
  - right. now apply String.compare_eq_iff.
  - destruct H as [H|H]; [congruence|]. subst.
    rewrite compare_refl in E. congruence.
Qed.

Lemma lt_irrefl a : ~ lt a a.
Proof. rewrite lt_iff, compare_refl. congruence. Qed.

Lemma lt_trans a b c : lt a b -> lt b c -> lt a c.
Proof. rewrite !lt_iff. apply compare_trans. Qed.

Lemma le_trans a b c : le a b -> le b c -> le a c.
Proof.
  rewrite !le_iff. intros [H1| ->] [H2| ->]; auto.
  left. eapply lt_trans; eauto.
Qed.

Lemma le_total a b : le a b \/ le b a.
Proof. apply String.leb_total. Qed.

End StrOrder.

(** ** Insertion sort *)

Section InsertionSortFacts.
Variable A : Type.
Variable leb : A -> A -> bool.
Hypothesis leb_total : forall a b, leb a b = true \/ leb b a = true.
Hypothesis leb_trans :
  forall a b c, leb a b = true -> leb b c = true -> leb a c = true.

Let R (a b : A) : Prop := leb a b = true.

Lemma insert_perm x l : Permutation (x :: l) (insert leb x l).
Proof.
  induction l as [|y l IH]; cbn; [reflexivity|].
  destruct (leb x y); [reflexivity|].
  rewrite perm_swap. now constructor.
Qed.

Lemma isort_perm l : Permutation l (isort leb l).
Proof.
  induction l as [|x l IH]; cbn; [constructor|].
  rewrite <- insert_perm. now constructor.
Qed.

Lemma insert_sorted x l :
  StronglySorted R l -> StronglySorted R (insert leb x l).
Proof.
  induction 1 as [|y l Hs IH Hy]; cbn.
  - repeat constructor.
  - destruct (leb x y) eqn:E.
    + constructor; [now constructor|].
      constructor; [exact E|].
      eapply Forall_impl; [|exact Hy]. intros z Hz. eapply leb_trans; eauto.
    + constructor; [exact IH|].
      eapply Permutation_Forall; [apply insert_perm|].
      constructor; [|exact Hy].
      destruct (leb_total x y) as [H|H]; [congruence|exact H].
Qed.

Lemma isort_sorted l : StronglySorted R (isort leb l).
Proof.
  induction l as [|x l IH]; cbn; [constructor|now apply insert_sorted].
Qed.

End InsertionSortFacts.

(** ** Text that is no IPv4 network *)

Section ForeignCharacter.
Import PyStr ipaddress.

Lemma split_not_nil sep s : split sep s <> [].
Proof.
  destruct s as [|a s]; cbn; [discriminate|].
  destruct (Ascii.eqb a sep); [discriminate|].
  destruct (split sep s); discriminate.
Qed.

Lemma mem_split c sep s :
  c <> sep -> mem c s = true ->
  exists part, In part (split sep s) /\ mem c part = true.
Proof.
  intros Hsep. induction s as [|a s IH]; cbn; [discriminate|].
  intros Hmem. destruct (Ascii.eqb a sep) eqn:Ea.
  - apply Ascii.eqb_eq in Ea. subst a.
    destruct (Ascii.eqb sep c) eqn:Ec.
    + apply Ascii.eqb_eq in Ec. congruence.
    + destruct (IH Hmem) as (part & Hin & Hp). exists part. split; [now right|exact Hp].
  - destruct (split sep s) as [|w ws] eqn:Es; [now apply split_not_nil in Es|].
    destruct (Ascii.eqb a c) eqn:Ec.
    + exists (String a w). split; [now left|]. cbn. now rewrite Ec.
    + destruct (IH Hmem) as (part & [Hw|Hin] & Hp).
      * subst w. exists (String a part). split; [now left|]. cbn. now rewrite Ec, Hp.
      * exists part. split; [now right|exact Hp].
Qed.

(** From here on [c] is a character that is not a decimal digit. *)
Variable c : ascii.
Hypothesis c_not_digit : is_ascii_digit c = false.

Lemma all_digits_mem s : mem c s = true -> all_digits s = false.
Proof.
  induction s as [|a s IH]; cbn; [discriminate|].
  destruct (Ascii.eqb a c) eqn:Ea; cbn.
  - apply Ascii.eqb_eq in Ea. subst a. now rewrite c_not_digit.
  - intros H. rewrite (IH H). apply andb_false_r.
Qed.

Lemma isascii_isdigit_mem s : mem c s = true -> isascii_isdigit s = false.
Proof.
  intros H. unfold isascii_isdigit. rewrite (all_digits_mem _ H).
  apply andb_false_r.
Qed.

Lemma _parse_octet_mem o :
  mem c o = true -> _parse_octet o = inl OnlyDecimalDigits.
Proof.
  intros H. unfold _parse_octet. rewrite (isascii_isdigit_mem _ H).
  destruct o; [discriminate|reflexivity].
Qed.

Lemma from_octets_mem ip_str o octets :
  In o octets -> mem c o = true ->
  forall acc, exists e, from_octets ip_str acc octets = Invalid e.
Proof.
  intros Hin Hmem. induction octets as [|o' octets IH]; [destruct Hin|].
  intros acc. cbn. destruct Hin as [->|Hin].
  - rewrite (_parse_octet_mem _ Hmem). eauto.
  - destruct (_parse_octet o'); [eauto|apply (IH Hin)].
Qed.

Hypothesis c_not_dot : c <> "."%char.

Lemma _ip_int_from_string_mem ip_str :
  mem c ip_str = true -> exists e, _ip_int_from_string ip_str = Invalid e.
Proof.
  intros H. unfold _ip_int_from_string.
  destruct (is_empty ip_str); [eauto|].
  destruct (negb (List.length (split "." ip_str) =? 4)%nat); [eauto|].
  destruct (mem_split ip_str c_not_dot H) as (o & Hin & Ho).
  eapply from_octets_mem; eauto.
Qed.

Lemma _make_netmask_mem mask :
  mem c mask = true -> exists e, _make_netmask (Some mask) = Invalid e.
Proof.
  intros H. unfold _make_netmask, _prefix_from_prefix_string.
  rewrite (isascii_isdigit_mem _ H). cbv beta iota delta [negb].
  unfold _prefix_from_ip_string.
  destruct (_ip_int_from_string_mem _ H) as (e & ->). eauto.
Qed.

Hypothesis c_not_slash : c <> "/"%char.

(** A text with a character other than a digit, a dot and a slash is
    rejected. *)
Lemma IPv4Network_of_mem address :
  mem c address = true -> exists e, IPv4Network_of address = Invalid e.
Proof.
  intros H. unfold IPv4Network_of, _split_optional_netmask.
  destruct (mem_split address c_not_slash H) as (part & Hin & Hp).
  destruct (split "/" address) as [|a [|m [|x rest]]]; cbn in *.
  - destruct Hin.
  - destruct Hin as [->|[]].
    destruct (_ip_int_from_string_mem _ Hp) as (e & ->). eauto.
  - destruct Hin as [->|[->|[]]].
    + destruct (_ip_int_from_string_mem _ Hp) as (e & ->). eauto.
    + destruct (_ip_int_from_string a); [|eauto].
      destruct (_make_netmask_mem _ Hp) as (e & ->). eauto.
  - eauto.
Qed.

End ForeignCharacter.

(** ** The normaliser and the extractor *)

Section Normaliser.
Import PyStr PyVal core.

Lemma cidr_to_range_parsed cidr network :
  IPv4Network cidr = ipaddress.Parsed network ->
  cidr_to_range cidr =
  ([], Ok (Some (ipaddress.str_address (ipaddress.network_address network)
                 ++ "-" ++
                 ipaddress.str_address (ipaddress.broadcast_address network))%string)).
Proof. intros H. unfold cidr_to_range. now rewrite H. Qed.

Lemma cidr_to_range_invalid cidr e :
  IPv4Network cidr = ipaddress.Invalid e ->
  cidr_to_range cidr = ([Stderr (InvalidCIDR cidr e)], Ok None).
Proof. intros H. unfold cidr_to_range. now rewrite H. Qed.

Lemma cidr_to_range_total cidr :
  exists v, outcome (cidr_to_range cidr) = Ok v.
Proof.
  unfold cidr_to_range. destruct (IPv4Network cidr); cbn; eauto.
Qed.

Lemma quiet_cidr_to_range cidr : quiet (cidr_to_range cidr).
Proof. unfold cidr_to_range. quiet_tac. Qed.

Lemma quiet_fetch_json w url : quiet (fetch_json w url).
Proof. unfold fetch_json. quiet_tac. Qed.

Lemma extract_prefix_total prefix acc :
  exists acc', outcome (extract_prefix prefix acc) = Ok acc'.
Proof.
  unfold extract_prefix.
  destruct prefix as [| | | |l|fields]; cbn; eauto.
  destruct (lookup "ipv4Prefix" fields) as [cidr|]; cbn; eauto.
  destruct cidr as [| | |s| |]; cbn; eauto.
  rewrite outcome_bind.
  destruct (cidr_to_range_total (JStr s)) as ([r|] & ->); cbn; eauto.
  destruct (is_empty r); cbn; eauto.
Qed.

Lemma quiet_extract_prefix prefix acc : quiet (extract_prefix prefix acc).
Proof.
  unfold extract_prefix.
  destruct prefix as [| | | |l|fields]; try solve [quiet_tac].
  destruct (lookup "ipv4Prefix" fields) as [cidr|]; [|quiet_tac].
  destruct cidr; try solve [quiet_tac].
  apply quiet_bind; [apply quiet_cidr_to_range|]. intros ?. quiet_tac.
Qed.

Lemma for_each_total {A S} (body : A -> S -> M S) (l : list A) :
  (forall x s, exists s', outcome (body x s) = Ok s') ->
  forall s, exists s', outcome (for_each l body s) = Ok s'.
Proof.
  intros Hb. induction l as [|x l IH]; intros s; cbn; [eauto|].
  rewrite outcome_bind. destruct (Hb x s) as (s' & ->). apply IH.
Qed.

(** The extractor never raises. *)
Lemma extract_ipv4_addresses_total data :
  exists ranges, outcome (extract_ipv4_addresses data) = Ok ranges.
Proof.
  unfold extract_ipv4_addresses.
  destruct data as [| | | |l|fields]; cbn; eauto.
  destruct (lookup "prefixes" fields) as [v|]; cbn; eauto.
  destruct v; cbn; eauto.
  apply for_each_total. apply extract_prefix_total.
Qed.

Lemma quiet_extract_ipv4_addresses data : quiet (extract_ipv4_addresses data).
Proof.
  unfold extract_ipv4_addresses.
  destruct data as [| | | |l|fields]; try solve [quiet_tac].
  destruct (lookup "prefixes" fields) as [v|]; [|quiet_tac].
  destruct v; try solve [quiet_tac].
  apply quiet_for_each. apply quiet_extract_prefix.
Qed.

End Normaliser.

(* ===================================================================== *)
(** * The range normaliser and the prefix extractor *)
(* ===================================================================== *)

Section NormaliserClaims.
Import PyStr PyVal core.
Local Open Scope string_scope.

(** C2.  [cidr_to_range] is a function of its argument alone.  It maps
    [192.0.2.0/24] to [192.0.2.0-192.0.2.255] and [192.0.2.1/32] to
    [192.0.2.1-192.0.2.1]; host bits are masked away ([192.0.2.77/24] gives
    the same range as [192.0.2.0/24]).  On every text that
    [IPv4Network(text, strict=False)] accepts it returns the network
    address, a dash and the broadcast address, with no diagnostic.  On
    every text the parser rejects it prints one diagnostic naming the
    input and the error and returns [None]; every text with a colon,
    hence every IPv6 CIDR such as [2001:db8::/32], and the text [invalid]
    are rejected.  It never raises. *)
Theorem cidr_to_range_normalises :
  cidr_to_range (JStr "192.0.2.0/24") = ([], Ok (Some "192.0.2.0-192.0.2.255")) /\
  cidr_to_range (JStr "192.0.2.1/32") = ([], Ok (Some "192.0.2.1-192.0.2.1")) /\
  cidr_to_range (JStr "192.0.2.77/24") = ([], Ok (Some "192.0.2.0-192.0.2.255")) /\
  (forall cidr network,
      ipaddress.IPv4Network_of cidr = ipaddress.Parsed network ->
      cidr_to_range (JStr cidr) =
      ([], Ok (Some (ipaddress.str_address (ipaddress.network_address network)
                     ++ "-" ++
                     ipaddress.str_address (ipaddress.broadcast_address network))))) /\
  (forall cidr e,
      ipaddress.IPv4Network_of cidr = ipaddress.Invalid e ->
      cidr_to_range (JStr cidr) = ([Stderr (InvalidCIDR (JStr cidr) e)], Ok None)) /\
  (forall cidr,
      mem ":" cidr = true ->
      exists e,
        cidr_to_range (JStr cidr) = ([Stderr (InvalidCIDR (JStr cidr) e)], Ok None)) /\
  cidr_to_range (JStr "2001:db8::/32") =
    ([Stderr (InvalidCIDR (JStr "2001:db8::/32")
                (ipaddress.Expected4Octets "2001:db8::"))], Ok None) /\
  cidr_to_range (JStr "invalid") =
    ([Stderr (InvalidCIDR (JStr "invalid")
                (ipaddress.Expected4Octets "invalid"))], Ok None) /\
  (forall cidr, exists v, outcome (cidr_to_range cidr) = Ok v).
Proof.
  split; [vm_compute; reflexivity|].
  split; [vm_compute; reflexivity|].
  split; [vm_compute; reflexivity|].
  split; [intros cidr network H; now apply cidr_to_range_parsed|].
  split; [intros cidr e H; now apply cidr_to_range_invalid|].
  split.
  { intros cidr H.
    destruct (@IPv4Network_of_mem ":"%char eq_refl) with (address := cidr)
      as (e & He); try discriminate; [exact H|].
    exists e. now apply cidr_to_range_invalid. }
  split; [vm_compute; reflexivity|].
  split; [vm_compute; reflexivity|].
  apply cidr_to_range_total.
Qed.

Lemma cidr_to_range_normalises_witness :
  ipaddress.IPv4Network_of "10.1.2.3/8"
    = ipaddress.Parsed (ipaddress.mkNetwork 167772160 4278190080 8) /\
  cidr_to_range (JStr "10.1.2.3/8") = ([], Ok (Some "10.0.0.0-10.255.255.255")) /\
  mem ":" "::1/128" = true /\
  exists e, cidr_to_range (JStr "::1/128")
            = ([Stderr (InvalidCIDR (JStr "::1/128") e)], Ok None).
Proof.
  destruct cidr_to_range_normalises as (_ & _ & _ & Hok & _ & Hv6 & _).
  split; [vm_compute; reflexivity|].
  split; [exact (Hok "10.1.2.3/8" _ eq_refl)|].
  split; [reflexivity|].
  exact (Hv6 "::1/128" eq_refl).
Defined.

(** C3.  On the example document, whose four prefixes are an IPv4 CIDR,
    an IPv6 CIDR, a mapping without [ipv4Prefix] and a string,
    [extract_ipv4_addresses] returns the one range of the IPv4 CIDR; the
    IPv6 prefix and the string are reported, the mapping without
    [ipv4Prefix] is passed over in silence. *)
Theorem extract_example_document :
  extract_ipv4_addresses example_prefix_document =
  ([ Stderr (InvalidCIDR (JStr "2001:db8::/32")
               (ipaddress.Expected4Octets "2001:db8::"));
     Stderr InvalidPrefixEntry ],
   Ok ["192.0.2.0-192.0.2.255"]).
Proof. vm_compute. reflexivity. Qed.

(** C4.  [extract_ipv4_addresses] returns the empty list, with one
    diagnostic, on every value that is not a mapping, on every mapping
    without a [prefixes] field and on every mapping whose [prefixes] field
    is not a list; and it raises on no input at all. *)
Theorem extract_malformed_document :
  (forall data,
      is_dict data = false ->
      extract_ipv4_addresses data = ([Stderr ResponseNotAnObject], Ok [])) /\
  (forall fields,
      lookup "prefixes" fields = None ->
      extract_ipv4_addresses (JDict fields)
      = ([Stderr ResponseMissingPrefixes], Ok [])) /\
  (forall fields prefixes,
      lookup "prefixes" fields = Some prefixes ->
      is_list prefixes = false ->
      extract_ipv4_addresses (JDict fields)
      = ([Stderr ResponsePrefixesNotAList], Ok [])) /\
  (forall data, exists ranges, outcome (extract_ipv4_addresses data) = Ok ranges).
Proof.
  split; [|split; [|split]].
  - intros data H. destruct data; try reflexivity. discriminate.
  - intros fields H. unfold extract_ipv4_addresses. now rewrite H.
  - intros fields prefixes H Hl. unfold extract_ipv4_addresses. rewrite H.
    destruct prefixes; try reflexivity. discriminate.
  - apply extract_ipv4_addresses_total.
Qed.

Lemma extract_malformed_document_witness :
  extract_ipv4_addresses (JStr "prefixes") = ([Stderr ResponseNotAnObject], Ok []) /\
  extract_ipv4_addresses (JDict [("data", JList [])])
  = ([Stderr ResponseMissingPrefixes], Ok []) /\
  extract_ipv4_addresses (JDict [("prefixes", JStr "192.0.2.0/24")])
  = ([Stderr ResponsePrefixesNotAList], Ok []).
Proof.
  destruct extract_malformed_document as (H1 & H2 & H3 & _).
  split; [exact (H1 (JStr "prefixes") eq_refl)|].
  split; [exact (H2 [("data", JList [])] eq_refl)|].
  exact (H3 [("prefixes", JStr "192.0.2.0/24")] (JStr "192.0.2.0/24") eq_refl eq_refl).
Defined.

End NormaliserClaims.

(** ** Keys, mappings and sorted range lists *)

Section DictFacts.
Import PyVal.

Lemma key_eqb_canon a b : key_eqb a b = true <-> canon a = canon b.
Proof.
  destruct a as [|[]|x|s], b as [|[]|y|t]; cbv [key_eqb canon key_num];
    try rewrite Z.eqb_eq; try rewrite String.eqb_eq;
    split; intros H; congruence.
Qed.


Lemma key_eqb_false a b : key_eqb a b = false <-> canon a <> canon b.
Proof.
  rewrite <- key_eqb_canon. destruct (key_eqb a b); split; congruence.
Qed.

Lemma set_keys k v d :
  map canon (Dict.keys (Dict.set k v d)) = map canon (Dict.keys d)
  \/ (~ In (canon k) (map canon (Dict.keys d))
      /\ Dict.keys (Dict.set k v d) = Dict.keys d ++ [k]).
Proof.
  induction d as [|[k' v'] d IH]; cbn.
  - right. split; [tauto|reflexivity].
  - destruct (key_eqb k' k) eqn:E; cbn; [now left|].
    destruct IH as [IH|[Hn IH]].
    + left. unfold Dict.keys in IH. now rewrite IH.
    + right. split.
      * intros [H|H]; [|tauto]. apply key_eqb_false in E. congruence.
      * unfold Dict.keys in *. now rewrite IH.
Qed.

Lemma set_distinct k v d : distinct_keys d -> distinct_keys (Dict.set k v d).
Proof.
  unfold distinct_keys. intros H.
  destruct (set_keys k v d) as [->|[Hn ->]]; [exact H|].
  rewrite map_app. cbn.
  eapply Permutation_NoDup; [apply Permutation_cons_append|].
  now constructor.
Qed.

Lemma set_values (P : list string -> Prop) k v d :
  Forall P (Dict.values d) -> P v -> Forall P (Dict.values (Dict.set k v d)).
Proof.
  intros H Hv. induction d as [|[k' v'] d IH]; cbn.
  - now repeat constructor.
  - inversion H; subst. destruct (key_eqb k' k); cbn; constructor; auto.
Qed.



Lemma get_set_other k k' v d :
  key_eqb k k' = false -> Dict.get k' (Dict.set k v d) = Dict.get k' d.
Proof.
  intros H. induction d as [|[k0 v0] d IH]; cbn.
  - destruct (key_eqb k k') eqn:E; congruence.
  - destruct (key_eqb k0 k) eqn:E0; cbn; [|now rewrite IH].
    destruct (key_eqb k0 k') eqn:E1; [|reflexivity].
    apply key_eqb_canon in E0, E1. apply key_eqb_false in H. congruence.
Qed.



Lemma sum_lengths_set k v d :
  core.sum_lengths (Dict.set k v d) <= core.sum_lengths d + List.length v.
Proof.
  unfold core.sum_lengths, Dict.values.
  unfold list_sum.
  induction d as [|[k' v'] d IH]; cbn [Dict.set map fold_right snd]; [lia|].
  destruct (key_eqb k' k); cbn [Dict.set map fold_right snd]; lia.
Qed.

(** *** [sorted(set(xs))] *)

Lemma strict_of_sorted_nodup l :
  StronglySorted StrOrderDefs.le l -> NoDup l -> ascending l.
Proof.
  induction 1 as [|x l Hs IH Hx]; intros Hn; [constructor|].
  inversion Hn as [|? ? Hnin Hn']; subst.
  constructor; [now apply IH|].
  rewrite Forall_forall in *. intros y Hy.
  destruct (proj1 (StrOrder.le_iff x y) (Hx y Hy)) as [H|H]; [exact H|].
  subst. contradiction.
Qed.

Lemma sorted_set_perm xs :
  Permutation (nodup string_dec xs) (Dict.sorted_set xs).
Proof. apply isort_perm. Qed.

Lemma sorted_set_ascending xs : ascending (Dict.sorted_set xs).
Proof.
  apply strict_of_sorted_nodup.
  - apply isort_sorted.
    + apply String.leb_total.
    + apply StrOrder.le_trans.
  - eapply Permutation_NoDup; [apply sorted_set_perm|apply NoDup_nodup].
Qed.

Lemma sorted_set_In x xs : In x (Dict.sorted_set xs) <-> In x xs.
Proof.
  split; intros H.
  - apply (nodup_In string_dec).
    eapply Permutation_in; [symmetry; apply sorted_set_perm|exact H].
  - eapply Permutation_in; [apply sorted_set_perm|]. now apply nodup_In.
Qed.

Lemma sorted_set_length xs : List.length (Dict.sorted_set xs) <= List.length xs.
Proof.
  rewrite <- (Permutation_length (sorted_set_perm xs)).
  apply NoDup_incl_length; [apply NoDup_nodup|].
  intros x. apply nodup_In.
Qed.

Lemma sorted_set_nonempty xs : xs <> [] -> Dict.sorted_set xs <> [].
Proof.
  destruct xs as [|x xs]; [congruence|]. intros _ H.
  assert (Hin : In x (Dict.sorted_set (x :: xs))) by (apply sorted_set_In; now left).
  rewrite H in Hin. destruct Hin.
Qed.

(** *** [sorted(d.items())] *)




Lemma sorted_items_perm d sections :
  Dict.sorted_items d = Ok sections -> Permutation d sections.
Proof.
  unfold Dict.sorted_items. destruct d as [|x [|y d]]; intros H.
  1,2: injection H as <-; reflexivity.
  destruct (_ || _); [|discriminate]. injection H as <-.
  exact (isort_perm Dict.item_leb (x :: y :: d)).
Qed.



End DictFacts.

(** ** The pipeline, stage by stage *)

Section PipelineFacts.
Import PyStr PyVal core.

Lemma files_written_app t1 t2 :
  files_written (t1 ++ t2) = files_written t1 ++ files_written t2.
Proof.
  induction t1 as [|[]]; cbn; [reflexivity|..]; now rewrite ?IHt1.
Qed.

Lemma files_written_quiet {A} (m : M A) : quiet m -> files_written (trace m) = [].
Proof.
  unfold quiet. induction 1 as [|e t He _ IH]; [reflexivity|].
  destruct e; cbn in *; auto; discriminate.
Qed.

Lemma files_opened_app t1 t2 :
  files_opened (t1 ++ t2) = files_opened t1 ++ files_opened t2.
Proof.
  induction t1 as [|[]]; cbn; [reflexivity|..]; now rewrite ?IHt1.
Qed.

Lemma files_opened_quiet {A} (m : M A) : quiet m -> files_opened (trace m) = [].
Proof.
  unfold quiet. induction 1 as [|e t He _ IH]; [reflexivity|].
  destruct e; cbn in *; auto; discriminate.
Qed.

Lemma for_each_invariant {A S} (P : S -> Prop) (body : A -> S -> M S) l :
  (forall x s s', P s -> outcome (body x s) = Ok s' -> P s') ->
  forall s s', P s -> outcome (for_each l body s) = Ok s' -> P s'.
Proof.
  intros Hb. induction l as [|x l IH]; intros s s' Hs; cbn.
  - intros H. injection H as <-. exact Hs.
  - rewrite outcome_bind. destruct (outcome (body x s)) as [s1|e] eqn:E;
      [|discriminate].
    apply IH. eapply Hb; eauto.
Qed.

Lemma fetch_json_outcome w url : outcome (fetch_json w url) = Ok (fetched w url).
Proof. unfold fetch_json, fetched. destruct (requests_get w url); reflexivity. Qed.

Ltac quiet_core :=
  repeat first
    [ apply quiet_fetch_json | apply quiet_extract_ipv4_addresses
    | apply quiet_cidr_to_range
    | solve [auto with quiet]
    | apply quiet_bind; [|intros ?]
    | match goal with
      | |- quiet (match ?x with _ => _ end) => destruct x
      | |- quiet (if ?x then _ else _) => destruct x
      end ].

Lemma quiet_fetch_source w item : quiet (fetch_source w item).
Proof. unfold fetch_source. quiet_core. Qed.

Lemma quiet_process_item w item acc : quiet (process_item w item acc).
Proof.
  unfold process_item. destruct acc as [d total].
  apply quiet_bind; [apply quiet_fetch_source|]. intros ?. quiet_core.
Qed.

Lemma quiet_add_ip_range ip_range acc : quiet (add_ip_range ip_range acc).
Proof. unfold add_ip_range. quiet_core. Qed.

Lemma quiet_add_bot bot acc : quiet (add_bot bot acc).
Proof.
  unfold add_bot. do 3 (apply quiet_bind; [apply quiet_lift|intros ?]).
  apply quiet_bind; [apply quiet_for_each; apply quiet_add_ip_range|].
  intros ?. quiet_core.
Qed.

Lemma quiet_load_additional_bots w config_file :
  quiet (load_additional_bots w config_file).
Proof.
  unfold load_additional_bots. apply quiet_bind.
  - unfold load_config, load_config_file. quiet_core.
  - intros [config|]; [|apply quiet_ret].
    do 2 (apply quiet_bind; [apply quiet_lift|intros ?]).
    apply quiet_for_each. apply quiet_add_bot.
Qed.

Lemma quiet_aggregate w main_data : quiet (aggregate w main_data).
Proof.
  unfold aggregate. apply quiet_bind; [quiet_core|].
  intros [|]; [quiet_core|].
  apply quiet_bind; [apply quiet_load_additional_bots|]. intros additional.
  do 2 (apply quiet_bind; [apply quiet_lift|intros ?]).
  apply quiet_bind; [apply quiet_for_each; apply quiet_process_item|].
  intros ?. apply quiet_bind; [|intros ?; apply quiet_ret].
  destruct additional; [apply quiet_ret|].
  apply quiet_bind; [apply quiet_print|]. intros ?.
  apply quiet_for_each. intros; apply quiet_print.
Qed.

(** What one step of the loop does to the mapping and to the counter. *)
Lemma process_item_outcome w item d total :
  outcome (process_item w item (d, total)) =
  match outcome (fetch_source w item) with
  | Ok (Some (bot_name, ipv4_ranges)) =>
      Ok (Dict.set (KStr bot_name) (Dict.sorted_set ipv4_ranges) d,
          total + List.length ipv4_ranges)
  | Ok None => Ok (d, total)
  | Raise e => Raise e
  end.
Proof.
  unfold process_item. rewrite outcome_bind.
  destruct (outcome (fetch_source w item)) as [[[name rs]|]|e]; reflexivity.
Qed.

(** The summary lines for the additional bots always go through. *)
Lemma summary_outcome (additional : bots) :
  outcome (for_each additional
             (fun item (_ : unit) =>
                print (AdditionalBotSummary (fst item) (List.length (snd item))))
             tt) = Ok tt.
Proof.
  induction additional as [|x l IH]; [reflexivity|].
  cbn [for_each]. rewrite outcome_bind. cbn [outcome print snd]. exact IH.
Qed.

(** The result of [aggregate] once the index has passed its check. *)
Lemma aggregate_outcome w main_data :
  truthy main_data = true ->
  py_in "data" main_data = Ok true ->
  outcome (aggregate w main_data) =
  match outcome (load_additional_bots w None) with
  | Ok additional =>
      match py_getitem main_data "data" with
      | Ok data =>
          match py_iter data with
          | Ok items =>
              match outcome (for_each items (process_item w)
                               (additional, sum_lengths additional)) with
              | Ok final => Ok (Some final)
              | Raise e => Raise e
              end
          | Raise e => Raise e
          end
      | Raise e => Raise e
      end
  | Raise e => Raise e
  end.
Proof.
  intros Ht Hin. unfold aggregate. rewrite Ht. cbn [negb].
  rewrite outcome_bind, outcome_bind. rewrite Hin.
  cbn [outcome lift snd ret negb]. rewrite outcome_bind.
  destruct (outcome (load_additional_bots w None)) as [additional|e];
    [|reflexivity].
  rewrite outcome_bind. cbn [outcome lift snd].
  destruct (py_getitem main_data "data") as [data|e]; [|reflexivity].
  rewrite outcome_bind. cbn [outcome lift snd].
  destruct (py_iter data) as [items|e]; [|reflexivity].
  rewrite outcome_bind.
  destruct (outcome (for_each items (process_item w) _)) as [final|e];
    [|reflexivity].
  rewrite outcome_bind.
  destruct additional as [|b bs]; [reflexivity|].
  rewrite outcome_bind. cbn [outcome print snd].
  now rewrite summary_outcome.
Qed.

(** The early return of [aggregate]. *)
Lemma aggregate_rejects w main_data :
  truthy main_data = false \/ py_in "data" main_data = Ok false ->
  aggregate w main_data = ([Stderr FailedToFetchMainEndpointList], Ok None).
Proof.
  intros H. unfold aggregate.
  destruct (truthy main_data); cbn [negb].
  - destruct H as [H|H]; [discriminate|]. now rewrite H.
  - reflexivity.
Qed.

Lemma aggregate_passes w main_data collected :
  outcome (aggregate w main_data) = Ok (Some collected) ->
  truthy main_data = true /\ py_in "data" main_data = Ok true.
Proof.
  unfold aggregate. destruct (truthy main_data); cbn [negb];
    [|rewrite bind_ret_l; discriminate].
  destruct (py_in "data" main_data) as [[|]|e]; auto; discriminate.
Qed.

Lemma render_and_write_run w path d total :
  render_and_write w path d total =
  match Dict.sorted_items d with
  | Ok sections =>
      if open_for_writing w path then
        match write_content w path with
        | Written =>
            ([ FileOpened path;
               FileWritten path (output_content (datetime_now w) sections total);
               Stdout (GeneratedSummary path total) ], Ok 0%Z)
        | WriteIOError => ([FileOpened path; Stderr (ErrorWriting path)], Ok 1%Z)
        | WriteUnicodeEncodeError => ([FileOpened path], Raise UnicodeError)
        end
      else ([Stderr (ErrorWriting path)], Ok 1%Z)
  | Raise e => ([], Raise e)
  end.
Proof.
  unfold render_and_write. destruct (Dict.sorted_items d); [|reflexivity].
  rewrite bind_lift_ok. destruct (open_for_writing w path); [|reflexivity].
  destruct (write_content w path); reflexivity.
Qed.

Lemma generate_outcome w output_path :
  outcome (generate_bot_ips w output_path) =
  match outcome (aggregate w (fetched w (JStr main_url))) with
  | Ok (Some (d, total)) =>
      outcome (render_and_write w (target output_path) d total)
  | Ok None => Ok 1%Z
  | Raise e => Raise e
  end.
Proof.
  unfold generate_bot_ips. rewrite outcome_bind. cbn [outcome print snd].
  rewrite outcome_bind, fetch_json_outcome, outcome_bind.
  destruct (outcome (aggregate w _)) as [[[d total]|]|e]; reflexivity.
Qed.

Lemma generate_files w output_path :
  files_written (trace (generate_bot_ips w output_path)) =
  match outcome (aggregate w (fetched w (JStr main_url))) with
  | Ok (Some (d, total)) =>
      files_written (trace (render_and_write w (target output_path) d total))
  | _ => []
  end.
Proof.
  unfold generate_bot_ips. rewrite trace_bind. cbn [outcome trace print fst snd].
  rewrite trace_bind, fetch_json_outcome, trace_bind.
  rewrite !files_written_app.
  rewrite (files_written_quiet (quiet_fetch_json w _)).
  rewrite (files_written_quiet (quiet_aggregate w _)).
  cbn [files_written app].
  destruct (outcome (aggregate w _)) as [[[d total]|]|e]; reflexivity.
Qed.

Lemma generate_opened w output_path :
  files_opened (trace (generate_bot_ips w output_path)) =
  match outcome (aggregate w (fetched w (JStr main_url))) with
  | Ok (Some (d, total)) =>
      files_opened (trace (render_and_write w (target output_path) d total))
  | _ => []
  end.
Proof.
  unfold generate_bot_ips. rewrite trace_bind. cbn [outcome trace print fst snd].
  rewrite trace_bind, fetch_json_outcome, trace_bind.
  rewrite !files_opened_app.
  rewrite (files_opened_quiet (quiet_fetch_json w _)).
  rewrite (files_opened_quiet (quiet_aggregate w _)).
  cbn [files_opened app].
  destruct (outcome (aggregate w _)) as [[[d total]|]|e]; reflexivity.
Qed.

End PipelineFacts.

(** ** Invariants of the loader and of the aggregation loop *)

Section Invariants.
Import PyStr PyVal core.

Lemma tidy_nil : tidy [].
Proof. split; constructor. Qed.

Lemma tidy_set k xs d : tidy d -> tidy (Dict.set k (Dict.sorted_set xs) d).
Proof.
  intros [Hd Hv]. split; [now apply set_distinct|].
  apply set_values; [exact Hv|apply sorted_set_ascending].
Qed.

Lemma sorted_set_values_ok ip_ranges value :
  sorted_set_values ip_ranges = Ok value ->
  exists ss, strings_of ip_ranges = Some ss /\ value = Dict.sorted_set ss.
Proof.
  unfold sorted_set_values. destruct (strings_of ip_ranges) as [ss|];
    [|discriminate].
  intros H. injection H as <-. eauto.
Qed.

(** One entry of the configuration either leaves the mapping alone or
    stores a sorted set under the entry's name. *)
Lemma add_bot_outcome bot d d' :
  outcome (add_bot bot d) = Ok d' ->
  d' = d \/ exists key ss, d' = Dict.set key (Dict.sorted_set ss) d.
Proof.
  unfold add_bot. rewrite outcome_bind. cbn [outcome lift snd].
  destruct (py_get bot "name" _) as [bot_name|]; [|discriminate].
  rewrite outcome_bind. cbn [outcome lift snd].
  destruct (py_get bot "ip_ranges" _) as [listed|]; [|discriminate].
  rewrite outcome_bind. cbn [outcome lift snd].
  destruct (py_iter listed) as [elements|]; [|discriminate].
  rewrite outcome_bind.
  destruct (outcome (for_each elements add_ip_range [])) as [[|r rs]|];
    [|cbv beta iota|discriminate].
  - intros H. injection H as <-. now left.
  - rewrite outcome_bind. cbn [outcome lift snd].
    destruct (sorted_set_values (r :: rs)) as [value|] eqn:E; [|discriminate].
    apply sorted_set_values_ok in E as (ss & _ & ->).
    destruct (hashable bot_name) as [key|]; [|discriminate].
    intros H. injection H as <-. right. eauto.
Qed.

Lemma load_additional_bots_tidy w config_file d :
  outcome (load_additional_bots w config_file) = Ok d -> tidy d.
Proof.
  unfold load_additional_bots. rewrite outcome_bind.
  destruct (outcome (load_config w config_file)) as [[config|]|];
    [| |discriminate].
  - rewrite outcome_bind. cbn [outcome lift snd].
    destruct (py_get config "additional_bots" _) as [listed|]; [|discriminate].
    rewrite outcome_bind. cbn [outcome lift snd].
    destruct (py_iter listed) as [entries|]; [|discriminate].
    apply for_each_invariant; [|apply tidy_nil].
    intros bot s s' Hs H.
    destruct (add_bot_outcome _ _ H) as [->|(key & ss & ->)];
      [exact Hs|now apply tidy_set].
  - intros H. injection H as <-. apply tidy_nil.
Qed.

(** The loop keeps the mapping tidy and the counter at or above the
    number of ranges the mapping holds. *)
Lemma process_item_invariant w item acc acc' :
  tidy (fst acc) /\ sum_lengths (fst acc) <= snd acc ->
  outcome (process_item w item acc) = Ok acc' ->
  tidy (fst acc') /\ sum_lengths (fst acc') <= snd acc'.
Proof.
  destruct acc as [d total]. rewrite process_item_outcome.
  destruct (outcome (fetch_source w item)) as [[[name rs]|]|];
    [| |discriminate]; intros [Ht Hs] H; injection H as <-; cbn [fst snd] in *.
  - split; [now apply tidy_set|].
    pose proof (sum_lengths_set (KStr name) (Dict.sorted_set rs) d).
    pose proof (sorted_set_length rs). lia.
  - auto.
Qed.

Lemma aggregate_invariant w main_data d total :
  outcome (aggregate w main_data) = Ok (Some (d, total)) ->
  tidy d /\ sum_lengths d <= total.
Proof.
  intros H. destruct (aggregate_passes _ _ H) as [Ht Hin].
  rewrite (aggregate_outcome w _ Ht Hin) in H.
  destruct (outcome (load_additional_bots w None)) as [additional|] eqn:El;
    [|discriminate].
  destruct (py_getitem main_data "data") as [data|]; [|discriminate].
  destruct (py_iter data) as [items|]; [|discriminate].
  destruct (outcome (for_each items _ _)) as [final|] eqn:Ef; [|discriminate].
  injection H as ->.
  apply (for_each_invariant
           (fun acc => tidy (fst acc) /\ sum_lengths (fst acc) <= snd acc)
           (process_item w) items
           (process_item_invariant w)) in Ef; [exact Ef|].
  cbn [fst snd]. split; [|apply le_n]. eapply load_additional_bots_tidy; eauto.
Qed.

(** Whatever a run writes is the rendering of a sorted tidy mapping. *)
Lemma generate_writes w output_path path content :
  In (path, content) (files_written (trace (generate_bot_ips w output_path))) ->
  exists d total sections,
    outcome (aggregate w (fetched w (JStr main_url))) = Ok (Some (d, total))
    /\ Dict.sorted_items d = Ok sections
    /\ path = target output_path
    /\ content = output_content (datetime_now w) sections total.
Proof.
  rewrite generate_files.
  destruct (outcome (aggregate w _)) as [[[d total]|]|] eqn:Ea; try (intros []).
  rewrite render_and_write_run.
  destruct (Dict.sorted_items d) as [sections|] eqn:Es; [|intros []].
  destruct (open_for_writing w _); cbn; [|intros []].
  destruct (write_content w _); cbn; [|intros []|intros []].
  intros [H|[]]. injection H as <- <-. exists d, total, sections.
  repeat split; auto.
Qed.

End Invariants.

(** ** The output file as a list of lines *)

Section TextFacts.
Import PyStr PyVal core.

Lemma string_app_assoc (a b c : string) :
  ((a ++ b) ++ c = a ++ (b ++ c))%string.
Proof. induction a as [|x a IH]; cbn; [reflexivity|now rewrite IH]. Qed.

Lemma mem_append c a b : mem c (a ++ b) = mem c a || mem c b.
Proof.
  induction a as [|x a IH]; cbn [mem String.append]; [reflexivity|].
  now rewrite IH, orb_assoc.
Qed.

Lemma split_no_sep sep s : mem sep s = false -> split sep s = [s].
Proof.
  induction s as [|c s IH]; [reflexivity|]. cbn [mem split].
  intros H. apply orb_false_iff in H as [Hc Hs].
  rewrite Hc, (IH Hs). reflexivity.
Qed.

Lemma string_app_nil_r (a : string) : (a ++ EmptyString)%string = a.
Proof. induction a as [|x a IH]; cbn; [reflexivity|now rewrite IH]. Qed.

Lemma split_app_sep c a b :
  split c (a ++ String c b) = split c a ++ split c b.
Proof.
  induction a as [|x a IH]; cbn [String.append split app].
  - now rewrite Ascii.eqb_refl.
  - rewrite IH. destruct (Ascii.eqb x c); [reflexivity|].
    destruct (split c a) as [|w ws] eqn:E; [|reflexivity].
    now destruct (split_not_nil c a).
Qed.

Lemma concat_empty_cons x xs :
  String.concat EmptyString (x :: xs) = (x ++ String.concat EmptyString xs)%string.
Proof. destruct xs; cbn; [now rewrite string_app_nil_r|reflexivity]. Qed.

Lemma unlines_cons l ls : unlines (l :: ls) = (l ++ nl ++ unlines ls)%string.
Proof.
  unfold unlines. cbn [map]. rewrite concat_empty_cons.
  now rewrite string_app_assoc.
Qed.

Lemma unlines_app a b : unlines (a ++ b) = (unlines a ++ unlines b)%string.
Proof.
  induction a as [|l a IH]; [reflexivity|].
  cbn [app]. rewrite !unlines_cons, IH. now rewrite !string_app_assoc.
Qed.

Lemma lines_unlines ls rest :
  Forall one_line ls -> lines (unlines ls ++ rest) = ls ++ lines rest.
Proof.
  induction 1 as [|l ls Hl _ IH]; [reflexivity|].
  rewrite unlines_cons, !string_app_assoc. unfold lines in *.
  change (nl ++ (unlines ls ++ rest))%string
    with (String (ascii_of_nat 10) (unlines ls ++ rest)).
  rewrite split_app_sep, IH, (split_no_sep _ _ Hl). reflexivity.
Qed.

(** The renderer follows the layout. *)
Lemma bot_section_lines item : bot_section item = unlines (section_lines item).
Proof.
  destruct item as [k rs]. unfold bot_section, section_lines. cbn [fst snd].
  rewrite unlines_cons, unlines_app, !string_app_assoc. do 3 f_equal.
  change (unlines [EmptyString]) with nl. f_equal.
  induction rs as [|r rs IH]; [reflexivity|].
  cbn [map]. rewrite concat_empty_cons, unlines_cons, IH.
  unfold range_line, quoted. now rewrite !string_app_assoc.
Qed.

Lemma output_content_lines t sections total :
  output_content t sections total = unlines (file_lines t sections total).
Proof.
  unfold output_content, file_lines. rewrite !unlines_app. f_equal; [|f_equal].
  - unfold header, header_lines. rewrite !unlines_cons.
    now rewrite !string_app_assoc.
  - induction sections as [|item sections IH]; [reflexivity|].
    cbn [map flat_map]. rewrite concat_empty_cons, unlines_app, IH.
    now rewrite bot_section_lines.
Qed.


(** *** The file read back *)

Lemma strip_prefix_app p s : strip_prefix p (p ++ s) = Some s.
Proof.
  induction p as [|a p IH]; [reflexivity|].
  cbn [String.append strip_prefix]. now rewrite Ascii.eqb_refl.
Qed.

Lemma append_length (a b : string) :
  String.length (a ++ b) = String.length a + String.length b.
Proof. induction a as [|x a IH]; cbn; [reflexivity|now rewrite IH]. Qed.

Lemma strip_suffix_app q r : strip_suffix q (r ++ q) = Some r.
Proof.
  induction r as [|c r IH].
  - cbn [String.append]. destruct q; cbn [strip_suffix]; now rewrite String.eqb_refl.
  - cbn [String.append strip_suffix]. rewrite IH.
    destruct (String.eqb_spec (String c (r ++ q)) q) as [E|_]; [|reflexivity].
    apply (f_equal String.length) in E. cbn [String.length] in E.
    rewrite append_length in E. lia.
Qed.

Lemma read_line_comment name : read_line ("    # " ++ name) = BotComment name.
Proof. unfold read_line. now rewrite strip_prefix_app. Qed.

Lemma read_line_quoted r : read_line (quoted r) = QuotedRange r.
Proof.
  unfold read_line, quoted.
  change (strip_prefix "    # " ("    '" ++ r ++ "',")) with (@None string).
  now rewrite strip_prefix_app, strip_suffix_app.
Qed.

Lemma read_lines_quoted rs rest :
  read_lines (map quoted rs ++ rest)
  = (rs ++ fst (read_lines rest), snd (read_lines rest)).
Proof.
  induction rs as [|r rs IH]; cbn [map app read_lines].
  - now destruct (read_lines rest).
  - rewrite IH, read_line_quoted. reflexivity.
Qed.

Lemma read_lines_section item rest :
  fst (read_lines rest) = [] ->
  read_lines (section_lines item ++ rest)
  = ([], (str_key (fst item), snd item) :: snd (read_lines rest)).
Proof.
  intros H. unfold section_lines. cbn [app read_lines].
  rewrite <- app_assoc, read_lines_quoted, read_line_comment.
  cbn [app read_lines fst snd].
  destruct (read_lines rest) as [pending sections]. cbn [fst snd] in *.
  subst pending. cbn. now rewrite app_nil_r.
Qed.

Lemma read_lines_sections sections rest :
  fst (read_lines rest) = [] ->
  read_lines (flat_map section_lines sections ++ rest)
  = ([], shown sections ++ snd (read_lines rest)).
Proof.
  intros H. induction sections as [|item sections IH]; cbn [flat_map shown map app].
  - destruct (read_lines rest); cbn in *. now subst.
  - rewrite <- app_assoc, read_lines_section; rewrite IH; reflexivity.
Qed.

Lemma read_lines_file t sections total :
  read_lines (file_lines t sections total ++ [EmptyString]) = ([], shown sections).
Proof.
  unfold file_lines, header_lines. rewrite <- !app_assoc.
  cbn [app read_lines].
  rewrite read_lines_sections by reflexivity.
  change (read_line "# Bot IP addresses for django-turnstile-site-protect")
    with OtherLine.
  change (read_line ("# Generated on " ++ t)) with OtherLine.
  change (read_line "# Source: https://search-engine-ip-tracker.merj.com/status")
    with OtherLine.
  change (read_line EmptyString) with OtherLine.
  change (read_line "GOOD_BOTS = [") with OtherLine.
  cbn [snd]. unfold footer_lines. cbn [app read_lines].
  change (read_line "]") with OtherLine.
  change (read_line EmptyString) with OtherLine.
  change (read_line ("# Total IP ranges: " ++ str_nat total)) with OtherLine.
  cbn. now rewrite app_nil_r.
Qed.

(** Digits hold no line feed. *)
Lemma digits_one_line d : one_line (NilEmpty.string_of_uint d).
Proof. unfold one_line. induction d; cbn [NilEmpty.string_of_uint mem]; auto. Qed.

Lemma str_nat_one_line n : one_line (str_nat n).
Proof.
  unfold str_nat, NilZero.string_of_uint.
  destruct (Nat.to_uint n); try apply digits_one_line. reflexivity.
Qed.

Lemma one_line_append a b : one_line a -> one_line b -> one_line (a ++ b).
Proof. unfold one_line. intros Ha Hb. now rewrite mem_append, Ha, Hb. Qed.

Lemma file_lines_one_line t sections total :
  one_line t -> plain sections -> Forall one_line (file_lines t sections total).
Proof.
  intros Ht Hs. unfold file_lines. rewrite !Forall_app. split; [|split].
  - unfold header_lines. repeat constructor.
    apply one_line_append; [reflexivity|exact Ht].
  - induction Hs as [|[k rs] sections [Hk Hrs] _ IH]; cbn [flat_map]; [constructor|].
    apply Forall_app. split; [|exact IH]. unfold section_lines. cbn [fst snd] in *.
    constructor; [apply one_line_append; [reflexivity|exact Hk]|].
    apply Forall_app. split; [|repeat constructor].
    apply Forall_map. eapply Forall_impl; [|exact Hrs]. intros r Hr.
    unfold quoted. apply one_line_append; [reflexivity|].
    apply one_line_append; [exact Hr|reflexivity].
  - unfold footer_lines. repeat constructor.
    apply one_line_append; [reflexivity|apply str_nat_one_line].
Qed.

Lemma lines_output_content t sections total :
  one_line t -> plain sections ->
  lines (output_content t sections total)
  = file_lines t sections total ++ [EmptyString].
Proof.
  intros Ht Hs. rewrite output_content_lines.
  rewrite <- (string_app_nil_r (unlines _)).
  now rewrite lines_unlines by now apply file_lines_one_line.
Qed.

(** A reader finds in the file the sections that were rendered, in their
    order. *)
Lemma read_sections_output_content t sections total :
  one_line t -> plain sections ->
  read_sections (output_content t sections total) = shown sections.
Proof.
  intros Ht Hs. unfold read_sections.
  now rewrite lines_output_content, read_lines_file.
Qed.

Lemma count_range_lines_quoted rs :
  List.length (filter (String.prefix "    '") (map quoted rs)) = List.length rs.
Proof.
  induction rs as [|r rs IH]; [reflexivity|]. cbn [map filter].
  change (String.prefix "    '" (quoted r))
    with (String.prefix EmptyString (r ++ "',")).
  destruct (r ++ "',")%string; cbn [String.prefix List.length]; now rewrite IH.
Qed.

Lemma range_lines_output_content t sections total :
  one_line t -> plain sections ->
  range_lines (output_content t sections total) = sum_lengths sections.
Proof.
  intros Ht Hs. unfold range_lines. fold (lines (output_content t sections total)).
  rewrite lines_output_content by assumption.
  unfold file_lines. rewrite !filter_app, !length_app.
  change (List.length (filter (String.prefix "    '") (header_lines t))) with 0.
  change (List.length (filter (String.prefix "    '") (footer_lines total))) with 0.
  change (List.length (filter (String.prefix "    '") [EmptyString])) with 0.
  rewrite !Nat.add_0_r. cbn [Nat.add].
  unfold sum_lengths, Dict.values. clear.
  induction sections as [|[k rs] sections IH]; [reflexivity|].
  cbn [flat_map map list_sum fold_right snd]. rewrite filter_app, length_app, IH.
  f_equal. unfold section_lines. cbn [fst snd filter].
  change (String.prefix "    '" ("    # " ++ str_key k)) with false.
  cbv iota. rewrite filter_app, length_app, count_range_lines_quoted.
  cbn. lia.
Qed.

Lemma last_total_app xs ys :
  last_total (xs ++ ys)
  = match last_total ys with Some n => Some n | None => last_total xs end.
Proof.
  induction xs as [|x xs IH]; cbn [app last_total].
  - now destruct (last_total ys).
  - rewrite IH. now destruct (last_total ys).
Qed.

(** The last comment of the file states the total, whatever the names
    and ranges above it hold. *)
Lemma total_comment_output_content t sections total :
  total_comment (output_content t sections total) = Some (str_nat total).
Proof.
  unfold total_comment. rewrite output_content_lines.
  unfold file_lines, footer_lines.
  set (total_line := ("# Total IP ranges: " ++ str_nat total)%string).
  replace (header_lines t ++ flat_map section_lines sections
           ++ ["]"; EmptyString; total_line])
    with ((header_lines t ++ flat_map section_lines sections ++ ["]"])
          ++ [EmptyString] ++ [total_line])
    by (now rewrite <- !app_assoc).
  rewrite !unlines_app.
  change (unlines [EmptyString] ++ unlines [total_line])%string
    with (String (ascii_of_nat 10) (unlines [total_line])).
  unfold lines. rewrite split_app_sep, last_total_app.
  fold (lines (unlines [total_line])).
  rewrite <- (string_app_nil_r (unlines [total_line])).
  rewrite lines_unlines
    by (repeat constructor; apply one_line_append;
        [reflexivity|apply str_nat_one_line]).
  cbn [app last_total lines split]. unfold total_line.
  now rewrite strip_prefix_app.
Qed.

End TextFacts.

(* ===================================================================== *)
(** * The aggregator and the renderer *)
(* ===================================================================== *)

Section AggregatorClaims.
Import PyStr PyVal core.
Local Open Scope string_scope.

(** The first claim fails as the specification words it: an index whose
    [data] field is a mapping has no [data] list, and yet the run writes
    the output file and returns 0. *)
Lemma index_without_data_list_not_fatal :
  ~ index_without_data_list_is_fatal world_data_not_a_list None.
Proof.
  intros H. specialize (H eq_refl). destruct H as (H & _).
  vm_compute in H. discriminate.
Qed.

(** C1 (amended).  When the index fetch returns an absent value, or any
    other value that Python takes for false, or a mapping without a [data]
    key, [generate_bot_ips] prints the diagnostic, returns 1 and leaves
    every file as it is: it opens none for writing and writes none. *)
Theorem index_fetch_failure_is_fatal w output_path :
  let main_data := fetched w (JStr main_url) in
  let run := generate_bot_ips w output_path in
  truthy main_data = false
  \/ (exists fields, main_data = JDict fields /\ lookup "data" fields = None) ->
  outcome run = Ok 1%Z
  /\ In (Stderr FailedToFetchMainEndpointList) (trace run)
  /\ files_opened (trace run) = []
  /\ files_written (trace run) = [].
Proof.
  intros main_data run H.
  assert (Hr : aggregate w main_data
               = ([Stderr FailedToFetchMainEndpointList], Ok None)).
  { apply aggregate_rejects. destruct H as [H|(fields & -> & H)]; [now left|].
    right. cbn. now rewrite H. }
  subst run. split; [|split; [|split]].
  - rewrite generate_outcome. fold main_data. now rewrite Hr.
  - unfold generate_bot_ips. rewrite trace_bind. cbn [outcome print snd].
    rewrite trace_bind, fetch_json_outcome, trace_bind. fold main_data.
    rewrite Hr. cbn [trace fst]. rewrite !in_app_iff. right. right. left.
    now left.
  - rewrite generate_opened. fold main_data. now rewrite Hr.
  - rewrite generate_files. fold main_data. now rewrite Hr.
Qed.

Lemma index_fetch_failure_is_fatal_witness :
  let w := serving [] in
  let run := generate_bot_ips w (Some "out.py") in
  truthy (fetched w (JStr main_url)) = false
  /\ outcome run = Ok 1%Z
  /\ In (Stderr FailedToFetchMainEndpointList) (trace run)
  /\ files_opened (trace run) = []
  /\ files_written (trace run) = [].
Proof.
  split; [reflexivity|].
  apply (index_fetch_failure_is_fatal (serving []) (Some "out.py")).
  left. reflexivity.
Defined.

(** The counter at the end of the loop: what it was at the start, and
    the length of every list a source yielded. *)
Lemma loop_counter w items : forall d total d' total',
  outcome (for_each items (process_item w) (d, total)) = Ok (d', total') ->
  total' = total + list_sum (map (yield_count w) items).
Proof.
  induction items as [|item items IH]; intros d total d' total'; cbn [for_each].
  - intros H. injection H as _ <-. cbn. apply plus_n_O.
  - rewrite outcome_bind, process_item_outcome.
    change (list_sum (map (yield_count w) (item :: items)))
      with (yield_count w item + list_sum (map (yield_count w) items)).
    unfold yield_count at 1.
    destruct (outcome (fetch_source w item)) as [[[name rs]|]|]; [| |discriminate];
      intros H; apply IH in H; lia.
Qed.

Lemma aggregate_counter w main_data d total :
  outcome (aggregate w main_data) = Ok (Some (d, total)) ->
  exists additional data items,
    outcome (load_additional_bots w None) = Ok additional
    /\ py_getitem main_data "data" = Ok data
    /\ py_iter data = Ok items
    /\ total = sum_lengths additional + list_sum (map (yield_count w) items).
Proof.
  intros H. destruct (aggregate_passes _ _ H) as [Ht Hin].
  rewrite (aggregate_outcome w _ Ht Hin) in H.
  destruct (outcome (load_additional_bots w None)) as [additional|] eqn:El;
    [|discriminate].
  destruct (py_getitem main_data "data") as [data|] eqn:Ed; [|discriminate].
  destruct (py_iter data) as [items|] eqn:Ei; [|discriminate].
  destruct (outcome (for_each items _ _)) as [[d' total']|] eqn:Ef; [|discriminate].
  injection H as -> ->. exists additional, data, items.
  split; [reflexivity|]. split; [reflexivity|]. split; [exact Ei|].
  exact (loop_counter _ _ _ _ Ef).
Qed.



(** C10.  A source that yields ranges adds the length of its extracted
    list, duplicates included, to the counter, whatever the mapping held
    under its name.  So the number that the last comment of every written
    file states is the size of the additional bots plus the lengths of all
    the lists the sources yielded, which is never below the number of
    ranges rendered; and it is strictly above the number of quoted range
    lines when a source lists a prefix twice and when two inputs share a
    bot name: in both example runs the file has one quoted range line and
    ends in [# Total IP ranges: 2]. *)
Theorem total_counts_before_deduplication :
  (forall w item d total bot_name ipv4_ranges,
      outcome (fetch_source w item) = Ok (Some (bot_name, ipv4_ranges)) ->
      outcome (process_item w item (d, total))
      = Ok (Dict.set (KStr bot_name) (Dict.sorted_set ipv4_ranges) d,
            total + List.length ipv4_ranges)) /\
  (forall w output_path path content,
      In (path, content) (files_written (trace (generate_bot_ips w output_path))) ->
      exists d total sections additional data items,
        outcome (aggregate w (fetched w (JStr main_url))) = Ok (Some (d, total))
        /\ Dict.sorted_items d = Ok sections
        /\ content = unlines (file_lines (datetime_now w) sections total)
        /\ total_comment content = Some (str_nat total)
        /\ outcome (load_additional_bots w None) = Ok additional
        /\ py_getitem (fetched w (JStr main_url)) "data" = Ok data
        /\ py_iter data = Ok items
        /\ total = sum_lengths additional + list_sum (map (yield_count w) items)
        /\ sum_lengths sections <= total
        /\ (one_line (datetime_now w) -> plain sections ->
            range_lines content = sum_lengths sections)) /\
  (exists content,
      files_written (trace (generate_bot_ips world_duplicate_prefix None))
      = [("bot_ips_config.py", content)]
      /\ content
         = unlines [ "# Bot IP addresses for django-turnstile-site-protect";
                     "# Generated on 2024-01-01 00:00:00";
                     "# Source: https://search-engine-ip-tracker.merj.com/status";
                     EmptyString;
                     "GOOD_BOTS = [";
                     "    # Bot - Test";
                     "    '192.0.2.0-192.0.2.255',";
                     EmptyString;
                     "]";
                     EmptyString;
                     "# Total IP ranges: 2" ]
      /\ total_comment content = Some "2"
      /\ range_lines content = 1) /\
  (exists content,
      files_written (trace (generate_bot_ips world_same_name None))
      = [("bot_ips_config.py", content)]
      /\ content
         = unlines [ "# Bot IP addresses for django-turnstile-site-protect";
                     "# Generated on 2024-01-01 00:00:00";
                     "# Source: https://search-engine-ip-tracker.merj.com/status";
                     EmptyString;
                     "GOOD_BOTS = [";
                     "    # Bot - Test";
                     "    '198.51.100.0-198.51.100.255',";
                     EmptyString;
                     "]";
                     EmptyString;
                     "# Total IP ranges: 2" ]
      /\ total_comment content = Some "2"
      /\ range_lines content = 1).
Proof.
  split; [|split; [|split]].
  - intros w item d total name rs H. rewrite process_item_outcome. now rewrite H.
  - intros w output_path path content H.
    destruct (generate_writes _ _ _ _ H) as (d & total & sections & Ha & Hs & _ & ->).
    destruct (aggregate_invariant _ _ Ha) as [_ Hle].
    destruct (aggregate_counter _ _ Ha)
      as (additional & data & items & Hl & Hd & Hi & Ht).
    exists d, total, sections, additional, data, items.
    split; [exact Ha|]. split; [exact Hs|].
    split; [apply output_content_lines|].
    split; [apply total_comment_output_content|].
    split; [exact Hl|]. split; [exact Hd|]. split; [exact Hi|].
    split; [exact Ht|].
    split.
    + assert (E : sum_lengths d = sum_lengths sections).
      { unfold sum_lengths, Dict.values.
        apply Permutation_list_sum. do 2 apply Permutation_map.
        now apply sorted_items_perm. }
      now rewrite <- E.
    + intros Hn Hp. now apply range_lines_output_content.
  - eexists. split; [vm_compute; reflexivity|].
    split; [vm_compute; reflexivity|].
    split; vm_compute; reflexivity.
  - eexists. split; [vm_compute; reflexivity|].
    split; [vm_compute; reflexivity|].
    split; vm_compute; reflexivity.
Qed.

Lemma total_counts_before_deduplication_witness :
  let w := world_duplicate_prefix in
  let item := source_entry "bot" "test" "https://a.example/ips.json" in
  let ranges := ["192.0.2.0-192.0.2.255"; "192.0.2.0-192.0.2.255"] in
  outcome (fetch_source w item) = Ok (Some ("Bot - Test", ranges))
  /\ outcome (process_item w item ([(KStr "Bot - Test", ["203.0.113.7"])], 1))
     = Ok ([(KStr "Bot - Test", ["192.0.2.0-192.0.2.255"])], 3)
  /\ exists content d total sections additional data items,
       files_written (trace (generate_bot_ips w None))
       = [("bot_ips_config.py", content)]
       /\ outcome (aggregate w (fetched w (JStr main_url))) = Ok (Some (d, total))
       /\ Dict.sorted_items d = Ok sections
       /\ content = unlines (file_lines (datetime_now w) sections total)
       /\ total_comment content = Some (str_nat total)
       /\ outcome (load_additional_bots w None) = Ok additional
       /\ py_getitem (fetched w (JStr main_url)) "data" = Ok data
       /\ py_iter data = Ok items
       /\ total = sum_lengths additional + list_sum (map (yield_count w) items)
       /\ sum_lengths sections <= total
       /\ (one_line (datetime_now w) -> plain sections ->
           range_lines content = sum_lengths sections).
Proof.
  destruct total_counts_before_deduplication as (Hstep & Hfile & _).
  split; [vm_compute; reflexivity|].
  split.
  - exact (Hstep world_duplicate_prefix
             (source_entry "bot" "test" "https://a.example/ips.json")
             [(KStr "Bot - Test", ["203.0.113.7"])] 1 "Bot - Test"
             ["192.0.2.0-192.0.2.255"; "192.0.2.0-192.0.2.255"] eq_refl).
  - assert (H : exists content,
               files_written (trace (generate_bot_ips world_duplicate_prefix None))
               = [("bot_ips_config.py", content)])
      by (eexists; vm_compute; reflexivity).
    destruct H as (content & H). exists content.
    destruct (Hfile world_duplicate_prefix None "bot_ips_config.py" content)
      as (d & total & sections & additional & data & items & Hrest).
    + rewrite H. now left.
    + exists d, total, sections, additional, data, items. split; [exact H|exact Hrest].
Defined.

End AggregatorClaims.

(* ===================================================================== *)
(** * Reruns and name collisions *)
(* ===================================================================== *)

Section RerunClaims.
Import PyStr PyVal core.

Lemma output_content_split t sections total :
  output_content t sections total
  = (before_timestamp ++ t ++ after_timestamp sections total)%string.
Proof.
  unfold output_content, header, before_timestamp, after_timestamp.
  now rewrite !string_app_assoc.
Qed.

Lemma printed_app t1 t2 : printed (t1 ++ t2) = printed t1 ++ printed t2.
Proof.
  induction t1 as [|[]]; cbn; [reflexivity|..]; now rewrite ?IHt1.
Qed.

Lemma aggregate_at_time w t main_data :
  aggregate (at_time w t) main_data = aggregate w main_data.
Proof. reflexivity. Qed.

Lemma fetch_json_at_time w t url : fetch_json (at_time w t) url = fetch_json w url.
Proof. reflexivity. Qed.

(** C9.  Two runs in worlds that differ in the time of day only (same
    responses, same configuration, same file system) return the same
    status and print the same lines, and the files they write are equal
    except for the timestamp: each is [before_timestamp], the time of the
    run, and a remainder that does not depend on the time. *)
Theorem rerun_differs_in_timestamp_only w output_path :
  exists (status : result Z) (lines : list event)
         (artifact : option (string * bots * nat)),
    forall current_time,
      let run := generate_bot_ips (at_time w current_time) output_path in
      outcome run = status
      /\ printed (trace run) = lines
      /\ files_written (trace run)
         = match artifact with
           | None => []
           | Some (path, sections, total) =>
               [(path, (before_timestamp ++ current_time
                        ++ after_timestamp sections total)%string)]
           end.
Proof.
  pose (main_data := fetched w (JStr main_url)).
  pose (head := Stdout (FetchingEndpointList main_url)
                :: trace (fetch_json w (JStr main_url))
                ++ trace (aggregate w main_data)).
  assert (Hrun : forall t,
             generate_bot_ips (at_time w t) output_path
             = (head ++ match outcome (aggregate w main_data) with
                        | Ok (Some (d, total)) =>
                            trace (render_and_write (at_time w t)
                                     (target output_path) d total)
                        | _ => []
                        end,
                match outcome (aggregate w main_data) with
                | Ok (Some (d, total)) =>
                    outcome (render_and_write (at_time w t)
                               (target output_path) d total)
                | Ok None => Ok 1%Z
                | Raise e => Raise e
                end)).
  { intros t. rewrite (M_eq (generate_bot_ips _ _)). f_equal.
    - unfold generate_bot_ips. rewrite trace_bind. cbn [outcome trace print fst snd].
      rewrite trace_bind, fetch_json_outcome, trace_bind.
      rewrite fetch_json_at_time, aggregate_at_time.
      change (fetched (at_time w t) (JStr main_url)) with main_data.
      unfold head. cbn [app]. f_equal. rewrite <- app_assoc. do 2 f_equal.
      destruct (outcome (aggregate w main_data)) as [[[d total]|]|e]; reflexivity.
    - rewrite generate_outcome.
      change (fetched (at_time w t) (JStr main_url)) with main_data.
      now rewrite aggregate_at_time. }
  assert (Hq : files_written head = [] /\ printed head = printed head) by
    (split; [|reflexivity];
     unfold head; cbn [files_written]; rewrite files_written_app;
     rewrite (files_written_quiet (quiet_fetch_json w _));
     now rewrite (files_written_quiet (quiet_aggregate w _))).
  destruct Hq as [Hq _].
  destruct (outcome (aggregate w main_data)) as [[[d total]|]|e] eqn:Ea.
  - destruct (Dict.sorted_items d) as [sections|e] eqn:Es.
    + destruct (open_for_writing w (target output_path)) eqn:Eo;
        [destruct (write_content w (target output_path)) eqn:Ew|].
      * exists (Ok 0%Z),
               (printed head ++ [FileOpened (target output_path);
                                 FileWritten (target output_path) EmptyString;
                                 Stdout (GeneratedSummary (target output_path) total)]),
               (Some (target output_path, sections, total)).
        intros t run. subst run. rewrite Hrun, render_and_write_run, Es.
        cbn [open_for_writing write_content at_time]. rewrite Eo, Ew.
        cbn [outcome trace fst snd].
        rewrite printed_app, files_written_app, Hq.
        cbn [printed files_written app datetime_now at_time].
        now rewrite output_content_split.
      * exists (Ok 1%Z),
               (printed head ++ [FileOpened (target output_path);
                                 Stderr (ErrorWriting (target output_path))]),
               None.
        intros t run. subst run. rewrite Hrun, render_and_write_run, Es.
        cbn [open_for_writing write_content at_time]. rewrite Eo, Ew.
        cbn [outcome trace fst snd].
        rewrite printed_app, files_written_app, Hq. auto.
      * exists (Raise UnicodeError),
               (printed head ++ [FileOpened (target output_path)]),
               None.
        intros t run. subst run. rewrite Hrun, render_and_write_run, Es.
        cbn [open_for_writing write_content at_time]. rewrite Eo, Ew.
        cbn [outcome trace fst snd].
        rewrite printed_app, files_written_app, Hq. auto.
      * exists (Ok 1%Z),
               (printed head ++ [Stderr (ErrorWriting (target output_path))]),
               None.
        intros t run. subst run. rewrite Hrun, render_and_write_run, Es.
        cbn [open_for_writing at_time]. rewrite Eo. cbn [outcome trace fst snd].
        rewrite printed_app, files_written_app, Hq. auto.
    + exists (Raise e), (printed head), None.
      intros t run. subst run. rewrite Hrun, render_and_write_run, Es.
      cbn [outcome trace fst snd]. rewrite app_nil_r. auto.
  - exists (Ok 1%Z), (printed head), None.
    intros t run. subst run. rewrite Hrun. cbn [outcome trace fst snd].
    rewrite app_nil_r. auto.
  - exists (Raise e), (printed head), None.
    intros t run. subst run. rewrite Hrun. cbn [outcome trace fst snd].
    rewrite app_nil_r. auto.
Qed.

End RerunClaims.

Section CollisionClaims.
Import PyStr PyVal core.



Lemma get_set_eqb k k' v d :
  key_eqb k k' = true -> Dict.get k' (Dict.set k v d) = Some v.
Proof.
  intros H. induction d as [|[k0 v0] d IH]; cbn.
  - now rewrite H.
  - destruct (key_eqb k0 k) eqn:E0; cbn.
    + assert (key_eqb k0 k' = true) as ->; [|reflexivity].
      apply key_eqb_canon in E0, H. apply key_eqb_canon. congruence.
    + assert (key_eqb k0 k' = false) as ->; [|exact IH].
      apply key_eqb_false in E0. apply key_eqb_canon in H.
      apply key_eqb_false. congruence.
Qed.



End CollisionClaims.

(* ===================================================================== *)
(** * Failures of single sources *)
(* ===================================================================== *)

Section SourceFailureClaims.
Import PyStr PyVal core.








End SourceFailureClaims.

(* ===================================================================== *)
(** * The additional-bots loader *)
(* ===================================================================== *)

Section LoaderClaims.
Import PyStr PyVal core.

Lemma strings_of_inv l : forall ss, strings_of l = Some ss -> l = map JStr ss.
Proof.
  induction l as [|x l IH]; intros ss; cbn.
  - intros H. now injection H as <-.
  - destruct x; try discriminate.
    destruct (strings_of l) as [ss'|]; [|discriminate].
    intros H. injection H as <-. cbn. f_equal. now apply IH.
Qed.

Lemma strings_of_map ss : strings_of (map JStr ss) = Some ss.
Proof. induction ss as [|s ss IH]; cbn; [reflexivity|now rewrite IH]. Qed.

Lemma range_not_empty cidr r :
  outcome (cidr_to_range cidr) = Ok (Some r) -> is_empty r = false.
Proof.
  unfold cidr_to_range. destruct (IPv4Network cidr) as [network|e];
    [|discriminate].
  generalize (ipaddress.str_address (ipaddress.network_address network)),
             (ipaddress.str_address (ipaddress.broadcast_address network)).
  intros a b H. unfold outcome, ret in H. cbn [snd] in H.
  injection H as <-. destruct a; reflexivity.
Qed.

Lemma add_ip_range_str r acc :
  outcome (add_ip_range (JStr r) acc) = Ok (acc ++ map JStr (normalize_range r)).
Proof.
  unfold add_ip_range, normalize_range. cbn [py_in]. rewrite bind_lift_ok.
  destruct (contains "/" r); [|reflexivity].
  rewrite outcome_bind.
  destruct (cidr_to_range_total (JStr r)) as ([x|] & E); rewrite E.
  - rewrite (range_not_empty _ E). reflexivity.
  - cbn. now rewrite app_nil_r.
Qed.

Lemma add_ip_ranges rs : forall acc,
  outcome (for_each (map JStr rs) add_ip_range acc)
  = Ok (acc ++ map JStr (normalized rs)).
Proof.
  induction rs as [|r rs IH]; intros acc; cbn [map for_each].
  - cbn. now rewrite app_nil_r.
  - rewrite outcome_bind, add_ip_range_str, IH.
    unfold normalized. cbn [flat_map]. now rewrite map_app, app_assoc.
Qed.

(** The loader's step on an entry of the documented shape is the step of
    the specification. *)
Lemma add_bot_decoded bot entry m :
  decode_bot bot = Some entry -> outcome (add_bot bot m) = Ok (spec_add_bot m entry).
Proof.
  destruct bot as [| | | | |fields]; try discriminate.
  unfold decode_bot, decode_name, decode_ranges, add_bot, spec_add_bot.
  cbn [py_get]. rewrite !bind_lift_ok.
  set (bot_name := match lookup "name" fields with
                   | Some v => v
                   | None => JStr "Unknown Bot"
                   end).
  assert (Hn : hashable bot_name
               = match lookup "name" fields with
                 | Some v => hashable v
                 | None => Some (KStr "Unknown Bot")
                 end) by (unfold bot_name; now destruct (lookup "name" fields)).
  rewrite <- Hn. clearbody bot_name. clear Hn.
  destruct (hashable bot_name) as [key|]; [|discriminate].
  assert (Hr : forall rs,
             match lookup "ip_ranges" fields with
             | Some (JList elements) => strings_of elements
             | Some _ => None
             | None => Some []
             end = Some rs ->
             match lookup "ip_ranges" fields with
             | Some v => v
             | None => JList []
             end = JList (map JStr rs)).
  { intros rs. destruct (lookup "ip_ranges" fields) as [[]|]; try discriminate.
    - intros H. f_equal. now apply strings_of_inv.
    - intros H. now injection H as <-. }
  destruct (match lookup "ip_ranges" fields with
            | Some (JList elements) => strings_of elements
            | Some _ => None
            | None => Some []
            end) as [rs|] eqn:E; [|discriminate].
  intros H. injection H as <-. cbn [fst snd].
  rewrite (Hr rs eq_refl). cbn [py_iter]. rewrite bind_lift_ok.
  rewrite outcome_bind, add_ip_ranges. cbn [app].
  destruct (normalized rs) as [|x xs] eqn:En; [reflexivity|].
  cbn [map]. rewrite outcome_bind.
  change (JStr x :: map JStr xs) with (map JStr (x :: xs)).
  unfold sorted_set_values. rewrite strings_of_map. reflexivity.
Qed.

Lemma add_bots_decoded entries : forall decoded m,
  decode_all entries = Some decoded ->
  outcome (for_each entries add_bot m) = Ok (fold_left spec_add_bot decoded m).
Proof.
  induction entries as [|bot entries IH]; intros decoded m; cbn [decode_all for_each].
  - intros H. now injection H as <-.
  - destruct (decode_bot bot) as [e|] eqn:Eb; [|discriminate].
    destruct (decode_all entries) as [es|]; [|discriminate].
    intros H. injection H as <-.
    rewrite outcome_bind, (add_bot_decoded _ m Eb). cbn [fold_left]. now apply IH.
Qed.

(** What the specified mapping holds under a name comes from an entry of
    that name. *)
Lemma spec_get entries : forall m name value,
  Dict.get name (fold_left spec_add_bot entries m) = Some value ->
  Dict.get name m = Some value
  \/ exists name' rs,
       In (name', rs) entries /\ key_eqb name' name = true
       /\ normalized rs <> [] /\ value = Dict.sorted_set (normalized rs).
Proof.
  induction entries as [|[n rs] entries IH]; intros m name value; cbn [fold_left].
  - now left.
  - intros H. destruct (IH _ _ _ H) as [Hm|(n' & rs' & Hin & Hrest)].
    + unfold spec_add_bot in Hm. cbn [fst snd] in Hm.
      destruct (normalized rs) as [|x xs] eqn:En; [now left|].
      destruct (key_eqb n name) eqn:E.
      * rewrite get_set_eqb in Hm by exact E. injection Hm as <-.
        right. exists n, rs. rewrite En. repeat split; auto; [now left|discriminate].
      * rewrite get_set_other in Hm by exact E. now left.
    + right. exists n', rs'. split; [now right|exact Hrest].
Qed.

Lemma spec_get_none entries : forall m name,
  (forall name' rs,
      In (name', rs) entries -> key_eqb name' name = true -> normalized rs = []) ->
  Dict.get name (fold_left spec_add_bot entries m) = Dict.get name m.
Proof.
  induction entries as [|[n rs] entries IH]; intros m name H; cbn [fold_left];
    [reflexivity|].
  rewrite IH; [|intros n' rs' Hin; apply H; now right].
  unfold spec_add_bot. cbn [fst snd].
  destruct (normalized rs) as [|x xs] eqn:En; [reflexivity|].
  destruct (key_eqb n name) eqn:E.
  - rewrite (H n rs (or_introl eq_refl) E) in En. discriminate.
  - now apply get_set_other.
Qed.

(** C7.  On every configuration document of the documented shape the
    loader returns the mapping of the specification: the entries are
    taken in order, the elements of [ip_ranges] are normalised (an element
    with a slash is replaced by the range the normaliser returns, or
    dropped when the normaliser fails; any other element is kept as it
    is), a bot with no range left is left out, and any other bot is stored
    under its name with its ranges deduplicated and sorted.  So every
    value of the mapping is non-empty and strictly ascending and consists
    of the normalised ranges of an entry of that name, and a name whose
    entries all end up empty is absent. *)
Theorem loader_meets_specification :
  (forall w config_file config entries,
      outcome (load_config w config_file) = Ok (Some config) ->
      decode_config config = Some entries ->
      outcome (load_additional_bots w config_file)
      = Ok (additional_bots_spec entries)) /\
  (forall entries name value,
      Dict.get name (additional_bots_spec entries) = Some value ->
      value <> [] /\ ascending value
      /\ exists name' ip_ranges,
           In (name', ip_ranges) entries /\ key_eqb name' name = true
           /\ forall r, In r value <-> In r (normalized ip_ranges)) /\
  (forall entries name,
      (forall name' ip_ranges,
          In (name', ip_ranges) entries -> key_eqb name' name = true ->
          normalized ip_ranges = []) ->
      Dict.get name (additional_bots_spec entries) = None) /\
  (forall ip_ranges r,
      In r (normalized ip_ranges) <->
      exists element,
        In element ip_ranges
        /\ ((contains "/" element = false /\ r = element)
            \/ (contains "/" element = true
                /\ outcome (cidr_to_range (JStr element)) = Ok (Some r)))).
Proof.
  split; [|split; [|split]].
  - intros w config_file config entries Hc Hd.
    unfold load_additional_bots. rewrite outcome_bind, Hc.
    destruct config as [| | | | |fields]; try discriminate.
    cbn [py_get decode_config] in *. rewrite bind_lift_ok.
    destruct (lookup "additional_bots" fields) as [[]|]; try discriminate.
    + cbn [py_iter]. rewrite bind_lift_ok. now apply add_bots_decoded.
    + injection Hd as <-. reflexivity.
  - intros entries name value H.
    destruct (spec_get _ _ _ H) as [Hm|(n' & rs & Hin & He & Hne & ->)];
      [discriminate|].
    split; [now apply sorted_set_nonempty|].
    split; [apply sorted_set_ascending|].
    exists n', rs. repeat split; auto; apply sorted_set_In.
  - intros entries name H. unfold additional_bots_spec.
    now rewrite spec_get_none.
  - intros ip_ranges r. unfold normalized. rewrite in_flat_map.
    split; intros (element & Hin & H); exists element; (split; [exact Hin|]);
      unfold normalize_range in *; destruct (contains "/" element).
    + right. split; [reflexivity|].
      destruct (outcome (cidr_to_range (JStr element))) as [[x|]|]; try destruct H.
      * now subst. * destruct H.
    + left. destruct H as [<-|[]]. auto.
    + destruct H as [[H _]|[_ ->]]; [discriminate|now left].
    + destruct H as [[_ ->]|[H _]]; [now left|discriminate].
Qed.

Lemma loader_meets_specification_witness :
  let entries :=
    [ (KStr "test_bot", ["192.0.2.0/24"; "10.0.0.1"; "2001:db8::/32"; "10.0.0.1"]);
      (KStr "v6_only", ["2001:db8::/32"]) ] in
  decode_config example_config = Some entries
  /\ additional_bots_spec entries
     = [(KStr "test_bot", ["10.0.0.1"; "192.0.2.0-192.0.2.255"])]
  /\ outcome (load_additional_bots world_with_example_config None)
     = Ok (additional_bots_spec entries)
  /\ Dict.get (KStr "v6_only") (additional_bots_spec entries) = None.
Proof.
  intros entries.
  destruct loader_meets_specification as (Hload & _ & Hnone & _).
  split; [reflexivity|]. split; [vm_compute; reflexivity|].
  split.
  - exact (Hload world_with_example_config None example_config entries
             eq_refl eq_refl).
  - apply Hnone. intros name' rs [H|[H|[]]] E; injection H as <- <-.
    + discriminate.
    + vm_compute. reflexivity.
Defined.

End LoaderClaims.

(* ===================================================================== *)
(** * Further properties of [core.py] *)
(* ===================================================================== *)

Section EventKinds.
Import PyStr PyVal core.

Lemma emits_only_bind (P : event -> Prop) {A B} (m : M A) (k : A -> M B) :
  emits_only P m -> (forall a, emits_only P (k a)) -> emits_only P (bind m k).
Proof.
  unfold emits_only. intros Hm Hk. rewrite trace_bind.
  apply Forall_app. split; [exact Hm|].
  destruct (outcome m); [apply Hk|constructor].
Qed.

Lemma emits_only_ret (P : event -> Prop) {A} (a : A) : emits_only P (ret a).
Proof. constructor. Qed.

Lemma emits_only_lift (P : event -> Prop) {A} (r : result A) :
  emits_only P (lift r).
Proof. constructor. Qed.

Lemma emits_only_print (P : event -> Prop) line :
  P (Stdout line) -> emits_only P (print line).
Proof. intros H. constructor; [exact H|constructor]. Qed.

Lemma emits_only_eprint (P : event -> Prop) line :
  P (Stderr line) -> emits_only P (eprint line).
Proof. intros H. constructor; [exact H|constructor]. Qed.

Lemma emits_only_for_each (P : event -> Prop) {A S}
    (body : A -> S -> M S) (l : list A) :
  (forall x s, emits_only P (body x s)) ->
  forall s, emits_only P (for_each l body s).
Proof.
  intros Hb. induction l as [|x l IH]; intros s; cbn [for_each].
  - apply emits_only_ret.
  - apply emits_only_bind; [apply Hb|exact IH].
Qed.

Ltac routine_step :=
  first
    [ apply emits_only_ret | apply emits_only_lift
    | apply emits_only_print; exact I
    | apply emits_only_eprint; exact I
    | apply emits_only_bind; [|intros ?]
    | match goal with
      | |- emits_only _ (match ?x with _ => _ end) => destruct x
      | |- emits_only _ (if ?x then _ else _) => destruct x
      end ].

Lemma routine_fetch_json w url : emits_only routine (fetch_json w url).
Proof. unfold fetch_json. repeat routine_step. Qed.

Lemma routine_cidr_to_range cidr : emits_only routine (cidr_to_range cidr).
Proof. unfold cidr_to_range. repeat routine_step. Qed.

Lemma routine_extract_prefix prefix acc :
  emits_only routine (extract_prefix prefix acc).
Proof.
  unfold extract_prefix.
  destruct prefix as [| | | |l|fields]; try solve [repeat routine_step].
  destruct (lookup "ipv4Prefix" fields) as [cidr|]; [|repeat routine_step].
  destruct cidr; try solve [repeat routine_step].
  apply emits_only_bind; [apply routine_cidr_to_range|]. intros ?.
  repeat routine_step.
Qed.

Lemma routine_extract_ipv4_addresses data :
  emits_only routine (extract_ipv4_addresses data).
Proof.
  unfold extract_ipv4_addresses.
  destruct data as [| | | |l|fields]; try solve [repeat routine_step].
  destruct (lookup "prefixes" fields) as [v|]; [|repeat routine_step].
  destruct v; try solve [repeat routine_step].
  apply emits_only_for_each. apply routine_extract_prefix.
Qed.

Lemma routine_fetch_source w item : emits_only routine (fetch_source w item).
Proof.
  unfold fetch_source.
  repeat first [ apply routine_fetch_json | apply routine_extract_ipv4_addresses
               | routine_step ].
Qed.

Lemma routine_process_item w item acc : emits_only routine (process_item w item acc).
Proof.
  unfold process_item. destruct acc as [d total].
  apply emits_only_bind; [apply routine_fetch_source|]. intros ?.
  repeat routine_step.
Qed.

Lemma routine_add_ip_range ip_range acc :
  emits_only routine (add_ip_range ip_range acc).
Proof.
  unfold add_ip_range.
  repeat first [apply routine_cidr_to_range | routine_step].
Qed.

Lemma routine_add_bot bot acc : emits_only routine (add_bot bot acc).
Proof.
  unfold add_bot. do 3 (apply emits_only_bind; [apply emits_only_lift|intros ?]).
  apply emits_only_bind;
    [apply emits_only_for_each; apply routine_add_ip_range|].
  intros ?. repeat routine_step.
Qed.

Lemma routine_load_additional_bots w config_file :
  emits_only routine (load_additional_bots w config_file).
Proof.
  unfold load_additional_bots. apply emits_only_bind.
  - unfold load_config, load_config_file. repeat routine_step.
  - intros [config|]; [|apply emits_only_ret].
    do 2 (apply emits_only_bind; [apply emits_only_lift|intros ?]).
    apply emits_only_for_each. apply routine_add_bot.
Qed.

(** The aggregation either stops at the check of the index, with the
    diagnostic for it, or prints routine events only and does not return
    the early [None]. *)
Lemma aggregate_cases w main_data :
  aggregate w main_data = ([Stderr FailedToFetchMainEndpointList], Ok None)
  \/ (emits_only routine (aggregate w main_data)
      /\ outcome (aggregate w main_data) <> Ok None).
Proof.
  destruct (truthy main_data) eqn:Ht;
    [|left; apply aggregate_rejects; now left].
  destruct (py_in "data" main_data) as [[|]|e] eqn:Hin.
  - right. split.
    + unfold aggregate. rewrite Ht, Hin. cbn [negb].
      rewrite bind_lift_ok, bind_ret_l. cbn [negb].
      apply emits_only_bind; [apply routine_load_additional_bots|].
      intros additional.
      do 2 (apply emits_only_bind; [apply emits_only_lift|intros ?]).
      apply emits_only_bind;
        [apply emits_only_for_each; apply routine_process_item|].
      intros ?. apply emits_only_bind; [|intros ?; apply emits_only_ret].
      destruct additional; [apply emits_only_ret|].
      apply emits_only_bind; [apply emits_only_print; exact I|]. intros ?.
      apply emits_only_for_each. intros; apply emits_only_print; exact I.
    + rewrite (aggregate_outcome w _ Ht Hin).
      destruct (outcome (load_additional_bots w None)); [|discriminate].
      destruct (py_getitem main_data "data"); [|discriminate].
      destruct (py_iter a0); [|discriminate].
      destruct (outcome (for_each _ _ _)); discriminate.
  - left. apply aggregate_rejects. now right.
  - right. unfold aggregate. rewrite Ht, Hin. cbn [negb]. split.
    + constructor.
    + discriminate.
Qed.

Lemma routine_not_fatal (t : list event) e :
  Forall routine t -> In e t -> routine e.
Proof. intros H. now apply Forall_forall. Qed.

End EventKinds.

Section StatusFacts.
Import PyStr PyVal core.

Lemma generate_trace w output_path :
  trace (generate_bot_ips w output_path) =
  Stdout (FetchingEndpointList main_url)
  :: trace (fetch_json w (JStr main_url))
  ++ trace (aggregate w (fetched w (JStr main_url)))
  ++ match outcome (aggregate w (fetched w (JStr main_url))) with
     | Ok (Some (d, total)) =>
         trace (render_and_write w (target output_path) d total)
     | _ => []
     end.
Proof.
  unfold generate_bot_ips. rewrite trace_bind. cbn [outcome trace print fst snd].
  rewrite trace_bind, fetch_json_outcome, trace_bind. cbn [app]. do 3 f_equal.
  destruct (outcome (aggregate w _)) as [[[d total]|]|e]; reflexivity.
Qed.

(** The status of a run against the files it has opened and written. *)
Lemma generate_status_files w output_path :
  let run := generate_bot_ips w output_path in
  let path := target output_path in
  (outcome run = Ok 0%Z
   <-> exists content, files_written (trace run) = [(path, content)])
  /\ (outcome run = Ok 0%Z -> files_opened (trace run) = [path])
  /\ (outcome run <> Ok 0%Z ->
      files_written (trace run) = []
      /\ (files_opened (trace run) = []
          \/ (files_opened (trace run) = [path]
              /\ open_for_writing w path = true
              /\ write_content w path <> Written))).
Proof.
  intros run path. subst run path.
  rewrite generate_outcome, generate_files, generate_opened.
  destruct (outcome (aggregate w _)) as [[[d total]|]|e].
  - rewrite render_and_write_run.
    destruct (Dict.sorted_items d) as [sections|e].
    + destruct (open_for_writing w (target output_path)) eqn:Eo;
        [destruct (write_content w (target output_path)) eqn:Ew|];
        cbn [outcome trace fst snd files_written files_opened].
      * split; [split; eauto|]. split; [reflexivity|congruence].
      * split; [split; [discriminate|intros (c & H); discriminate]|].
        split; [discriminate|]. intros _. split; [reflexivity|].
        right. split; [reflexivity|]. split; [reflexivity|discriminate].
      * split; [split; [discriminate|intros (c & H); discriminate]|].
        split; [discriminate|]. intros _. split; [reflexivity|].
        right. split; [reflexivity|]. split; [reflexivity|discriminate].
      * split; [split; [discriminate|intros (c & H); discriminate]|].
        split; [discriminate|]. intros _. split; [reflexivity|now left].
    + cbn. split; [split; [discriminate|intros (c & H); discriminate]|].
      split; [discriminate|]. intros _. split; [reflexivity|now left].
  - split; [split; [discriminate|intros (c & H); discriminate]|].
    split; [discriminate|]. intros _. split; [reflexivity|now left].
  - split; [split; [discriminate|intros (c & H); discriminate]|].
    split; [discriminate|]. intros _. split; [reflexivity|now left].
Qed.

(** X1.  [generate_bot_ips] returns 0 exactly when it has written the
    whole content to the output file, which it had opened before; it opens
    and writes one file at most, at the path it was given (or the
    default).  A run that returns anything else, or raises, has written
    no content: it leaves the file untouched, unless the file could be
    opened and the writing then failed, which leaves the file cut short. *)
Theorem status_zero_iff_file_written w output_path :
  let run := generate_bot_ips w output_path in
  let path := target output_path in
  (outcome run = Ok 0%Z
   <-> exists content, files_written (trace run) = [(path, content)])
  /\ (outcome run = Ok 0%Z -> files_opened (trace run) = [path])
  /\ (outcome run <> Ok 0%Z ->
      files_written (trace run) = []
      /\ (files_opened (trace run) = []
          \/ (files_opened (trace run) = [path]
              /\ open_for_writing w path = true
              /\ write_content w path <> Written))).
Proof.
  exact (generate_status_files w output_path).
Qed.

Lemma status_zero_iff_file_written_witness :
  (outcome (generate_bot_ips world_read_only (Some "out/bots.py")) <> Ok 0%Z
   /\ files_written (trace (generate_bot_ips world_read_only (Some "out/bots.py"))) = []
   /\ files_opened (trace (generate_bot_ips world_read_only (Some "out/bots.py"))) = [])
  /\ (outcome (generate_bot_ips world_disk_full (Some "out/bots.py")) = Ok 1%Z
      /\ files_written (trace (generate_bot_ips world_disk_full (Some "out/bots.py"))) = []
      /\ files_opened (trace (generate_bot_ips world_disk_full (Some "out/bots.py")))
         = ["out/bots.py"])
  /\ (outcome (generate_bot_ips world_duplicate_prefix None) = Ok 0%Z
      /\ files_opened (trace (generate_bot_ips world_duplicate_prefix None))
         = ["bot_ips_config.py"]
      /\ exists content,
           files_written (trace (generate_bot_ips world_duplicate_prefix None))
           = [("bot_ips_config.py", content)]).
Proof.
  assert (H1 : outcome (generate_bot_ips world_read_only (Some "out/bots.py"))
               <> Ok 0%Z) by (vm_compute; discriminate).
  assert (H2 : outcome (generate_bot_ips world_disk_full (Some "out/bots.py"))
               = Ok 1%Z) by (vm_compute; reflexivity).
  assert (H3 : outcome (generate_bot_ips world_duplicate_prefix None) = Ok 0%Z)
    by (vm_compute; reflexivity).
  pose proof (status_zero_iff_file_written world_read_only (Some "out/bots.py"))
    as (_ & _ & N1).
  pose proof (status_zero_iff_file_written world_disk_full (Some "out/bots.py"))
    as (_ & _ & N2).
  pose proof (status_zero_iff_file_written world_duplicate_prefix None)
    as (Z3 & O3 & _).
  split; [|split].
  - split; [exact H1|]. split; [exact (proj1 (N1 H1))|]. vm_compute. reflexivity.
  - split; [exact H2|].
    assert (N : outcome (generate_bot_ips world_disk_full (Some "out/bots.py"))
                <> Ok 0%Z) by (rewrite H2; discriminate).
    split; [exact (proj1 (N2 N))|]. vm_compute. reflexivity.
  - split; [exact H3|]. split; [exact (O3 H3)|]. exact (proj1 Z3 H3).
Defined.

(** X2.  The status of a run that returns is 0 or 1, and it is 1 exactly
    when one of the two fatal diagnostics was printed: the one for the
    index, or the one for the output file, which names the path. *)
Theorem status_one_iff_fatal_diagnostic w output_path :
  let run := generate_bot_ips w output_path in
  (forall status, outcome run = Ok status -> status = 0%Z \/ status = 1%Z)
  /\ (outcome run = Ok 1%Z
      <-> In (Stderr FailedToFetchMainEndpointList) (trace run)
          \/ In (Stderr (ErrorWriting (target output_path))) (trace run)).
Proof.
  intros run. subst run. rewrite generate_outcome, generate_trace.
  set (main_data := fetched w (JStr main_url)).
  set (path := target output_path).
  assert (Hlast : forall e t2 t3,
             Forall routine t2 ->
             e = Stderr FailedToFetchMainEndpointList
             \/ e = Stderr (ErrorWriting path) ->
             In e (Stdout (FetchingEndpointList main_url)
                   :: trace (fetch_json w (JStr main_url)) ++ t2 ++ t3) ->
             In e t3).
  { intros e t2 t3 H2 He [H|H]; [destruct He; subst; discriminate|].
    rewrite !in_app_iff in H. destruct H as [H|[H|H]]; [| |exact H]; exfalso.
    - pose proof (@routine_not_fatal _ _ (routine_fetch_json w _) H) as R.
      destruct He; subst; exact R.
    - pose proof (@routine_not_fatal _ _ H2 H) as R. destruct He; subst; exact R. }
  destruct (aggregate_cases w main_data) as [Hr|[Hr Hn]].
  - rewrite Hr. cbn [outcome trace fst snd]. split.
    + intros s H. injection H as <-. now right.
    + split; [|reflexivity]. intros _. left. right.
      rewrite !in_app_iff. right. left. now left.
  - destruct (outcome (aggregate w main_data)) as [[[d total]|]|e];
      [|congruence|].
    + rewrite render_and_write_run.
      destruct (Dict.sorted_items d) as [sections|e].
      * destruct (open_for_writing w path);
          [destruct (write_content w path)|]; cbn [outcome trace fst snd].
        -- split; [intros s H; injection H as <-; now left|].
           split; [discriminate|].
           intros [H|H]; apply (Hlast _ _ _ Hr) in H; auto;
             destruct H as [H|[H|[H|[]]]]; discriminate.
        -- split; [intros s H; injection H as <-; now right|].
           split; [|reflexivity]. intros _. right. right.
           rewrite !in_app_iff. right. right. right. now left.
        -- split; [discriminate|]. split; [discriminate|].
           intros [H|H]; apply (Hlast _ _ _ Hr) in H; auto;
             destruct H as [H|[]]; discriminate.
        -- split; [intros s H; injection H as <-; now right|].
           split; [|reflexivity]. intros _. right. right.
           rewrite !in_app_iff. right. right. now left.
      * cbn [outcome trace fst snd]. split; [discriminate|].
        split; [discriminate|].
        intros [H|H]; apply (Hlast _ _ _ Hr) in H; auto; destruct H.
    + split; [discriminate|]. split; [discriminate|].
      intros [H|H]; apply (Hlast _ _ _ Hr) in H; auto; destruct H.
Qed.

Lemma status_one_iff_fatal_diagnostic_witness :
  let run := generate_bot_ips world_read_only (Some "out/bots.py") in
  In (Stderr (ErrorWriting "out/bots.py")) (trace run)
  /\ outcome run = Ok 1%Z.
Proof.
  assert (H : In (Stderr (ErrorWriting "out/bots.py"))
                (trace (generate_bot_ips world_read_only (Some "out/bots.py"))))
    by (vm_compute; right; left; reflexivity).
  split; [exact H|].
  exact (proj2 (proj2 (status_one_iff_fatal_diagnostic world_read_only
                         (Some "out/bots.py"))) (or_intror H)).
Defined.

End StatusFacts.

Section MappingFacts.
Import PyStr PyVal core.

(** What an entry that yields ranges must look like. *)
Lemma fetch_source_yields w item name ranges :
  outcome (fetch_source w item) = Ok (Some (name, ranges)) ->
  exists source url ty id,
    py_getitem item "source" = Ok source
    /\ py_getitem source "url" = Ok url
    /\ py_get source "type" (JStr "unknown") = Ok (JStr ty)
    /\ py_get source "id" (JStr "unknown") = Ok (JStr id)
    /\ truthy (fetched w url) = true
    /\ outcome (extract_ipv4_addresses (fetched w url)) = Ok ranges
    /\ ranges <> []
    /\ name = display_name w ty id.
Proof.
  intros H. unfold fetch_source in H.
  rewrite outcome_bind in H. cbn [outcome lift snd] in H.
  destruct (py_in "source" item) as [[|]|]; cbn [negb] in H; try discriminate.
  rewrite outcome_bind in H. cbn [outcome lift snd] in H.
  destruct (py_getitem item "source") as [source|] eqn:Es; [|discriminate].
  rewrite outcome_bind in H. cbn [outcome lift snd] in H.
  destruct (py_in "url" source) as [[|]|]; cbn [negb] in H; try discriminate.
  rewrite outcome_bind in H. cbn [outcome lift snd] in H.
  destruct (py_getitem source "url") as [url|] eqn:Eu; [|discriminate].
  rewrite outcome_bind in H. cbn [outcome lift snd] in H.
  destruct (py_get source "id" (JStr "unknown")) as [sid|] eqn:Ei;
    [|discriminate].
  rewrite outcome_bind in H. cbn [outcome lift snd] in H.
  destruct (py_get source "type" (JStr "unknown")) as [sty|] eqn:Ety;
    [|discriminate].
  rewrite outcome_bind in H. cbn [outcome print snd] in H.
  rewrite outcome_bind, fetch_json_outcome in H.
  destruct (truthy (fetched w url)) eqn:Et;
    [|rewrite outcome_bind in H; discriminate].
  rewrite outcome_bind in H.
  destruct (outcome (extract_ipv4_addresses (fetched w url))) as [[|r rs]|] eqn:Ex;
    [rewrite outcome_bind in H; discriminate| |discriminate].
  destruct sty as [| | |ty| |]; try discriminate.
  destruct sid as [| | |id| |]; try discriminate.
  cbn [outcome ret snd] in H. injection H as Hname Hranges. subst name ranges.
  exists source, url, ty, id. repeat split; auto. discriminate.
Qed.

Lemma source_names_cons w item items :
  source_names w (item :: items)
  = match yields w item with
    | Some (name, _) => [KStr name]
    | None => []
    end ++ source_names w items.
Proof. reflexivity. Qed.

Lemma process_item_yields w item d total :
  outcome (process_item w item (d, total)) =
  match outcome (fetch_source w item) with
  | Raise e => Raise e
  | Ok _ =>
      match yields w item with
      | Some (name, ranges) =>
          Ok (Dict.set (KStr name) (Dict.sorted_set ranges) d,
              total + List.length ranges)
      | None => Ok (d, total)
      end
  end.
Proof.
  rewrite process_item_outcome. unfold yields.
  destruct (outcome (fetch_source w item)) as [[[name rs]|]|e]; reflexivity.
Qed.

Lemma add_bot_keeps_nonempty bot d d' :
  outcome (add_bot bot d) = Ok d' ->
  Forall (fun v => v <> []) (Dict.values d) ->
  Forall (fun v => v <> []) (Dict.values d').
Proof.
  unfold add_bot. rewrite outcome_bind. cbn [outcome lift snd].
  destruct (py_get bot "name" _) as [bot_name|]; [|discriminate].
  rewrite outcome_bind. cbn [outcome lift snd].
  destruct (py_get bot "ip_ranges" _) as [listed|]; [|discriminate].
  rewrite outcome_bind. cbn [outcome lift snd].
  destruct (py_iter listed) as [elements|]; [|discriminate].
  rewrite outcome_bind.
  destruct (outcome (for_each elements add_ip_range [])) as [[|r rs]|];
    [|cbv beta iota|discriminate].
  - intros H. now injection H as <-.
  - rewrite outcome_bind. cbn [outcome lift snd].
    destruct (sorted_set_values (r :: rs)) as [value|] eqn:E; [|discriminate].
    apply sorted_set_values_ok in E as (ss & Hss & ->).
    destruct (hashable bot_name) as [key|]; [|discriminate].
    intros H Hd. injection H as <-. apply set_values; [exact Hd|].
    apply sorted_set_nonempty. intros ->.
    destruct r; cbn in Hss; try discriminate.
    destruct (strings_of rs); discriminate.
Qed.

Lemma load_additional_bots_nonempty w config_file d :
  outcome (load_additional_bots w config_file) = Ok d ->
  Forall (fun v => v <> []) (Dict.values d).
Proof.
  unfold load_additional_bots. rewrite outcome_bind.
  destruct (outcome (load_config w config_file)) as [[config|]|];
    [| |discriminate].
  - rewrite outcome_bind. cbn [outcome lift snd].
    destruct (py_get config "additional_bots" _) as [listed|]; [|discriminate].
    rewrite outcome_bind. cbn [outcome lift snd].
    destruct (py_iter listed) as [entries|]; [|discriminate].
    apply (for_each_invariant
             (fun d => Forall (fun v : list string => v <> []) (Dict.values d))).
    + intros bot s s' Hs H. eapply add_bot_keeps_nonempty; eauto.
    + constructor.
  - intros H. injection H as <-. constructor.
Qed.

Lemma process_item_keeps_nonempty w item acc acc' :
  Forall (fun v => v <> []) (Dict.values (fst acc)) ->
  outcome (process_item w item acc) = Ok acc' ->
  Forall (fun v => v <> []) (Dict.values (fst acc')).
Proof.
  destruct acc as [d total]. rewrite process_item_outcome.
  destruct (outcome (fetch_source w item)) as [[[name rs]|]|] eqn:E;
    [| |discriminate]; intros Hd H; injection H as <-; cbn [fst] in *; auto.
  apply set_values; [exact Hd|]. apply sorted_set_nonempty.
  destruct (fetch_source_yields _ _ E) as (_ & _ & _ & _ & _ & _ & _ & _ & _ & _ & Hne & _).
  exact Hne.
Qed.

(** X3.  No bot is rendered without ranges: every file a run writes is
    laid out from the final mapping, sorted, and none of its sections is
    empty.  Where no name, no range and not the time holds a line feed, a
    reader of the file finds at least one quoted range under every bot
    comment. *)
Theorem no_section_is_empty w output_path path content :
  In (path, content) (files_written (trace (generate_bot_ips w output_path))) ->
  exists d total sections,
    outcome (aggregate w (fetched w (JStr main_url))) = Ok (Some (d, total))
    /\ Dict.sorted_items d = Ok sections
    /\ content = unlines (file_lines (datetime_now w) sections total)
    /\ Forall (fun ranges => ranges <> []) (Dict.values sections)
    /\ (one_line (datetime_now w) -> plain sections ->
        Forall (fun section => snd section <> []) (read_sections content)).
Proof.
  intros H.
  destruct (generate_writes _ _ _ _ H) as (d & total & sections & Ha & Hs & _ & ->).
  exists d, total, sections. split; [exact Ha|]. split; [exact Hs|].
  split; [apply output_content_lines|].
  assert (Hne : Forall (fun ranges : list string => ranges <> [])
                  (Dict.values sections)).
  { destruct (aggregate_passes _ _ Ha) as [Ht Hin].
    rewrite (aggregate_outcome w _ Ht Hin) in Ha.
    destruct (outcome (load_additional_bots w None)) as [additional|] eqn:El;
      [|discriminate].
    destruct (py_getitem _ "data") as [data|]; [|discriminate].
    destruct (py_iter data) as [items|]; [|discriminate].
    destruct (outcome (for_each items _ _)) as [final|] eqn:Ef; [|discriminate].
    injection Ha as ->.
    eapply Permutation_Forall.
    - unfold Dict.values. apply Permutation_map. eapply sorted_items_perm, Hs.
    - apply (for_each_invariant
               (fun acc => Forall (fun v : list string => v <> [])
                             (Dict.values (fst acc)))
               (process_item w) items
               (process_item_keeps_nonempty w)) in Ef; [exact Ef|].
      cbn [fst]. eapply load_additional_bots_nonempty, El. }
  split; [exact Hne|].
  intros Ht Hp. rewrite read_sections_output_content by assumption.
  unfold shown. apply Forall_map. unfold Dict.values in Hne.
  rewrite Forall_map in Hne. exact Hne.
Qed.

Lemma no_section_is_empty_witness :
  let w := world_unsorted in
  exists content,
    files_written (trace (generate_bot_ips w None)) = [("bot_ips_config.py", content)]
    /\ Forall (fun section => snd section <> []) (read_sections content)
    /\ exists d total sections,
         outcome (aggregate w (fetched w (JStr main_url))) = Ok (Some (d, total))
         /\ Dict.sorted_items d = Ok sections
         /\ content = unlines (file_lines (datetime_now w) sections total)
         /\ Forall (fun ranges => ranges <> []) (Dict.values sections)
         /\ (one_line (datetime_now w) -> plain sections ->
             Forall (fun section => snd section <> []) (read_sections content)).
Proof.
  assert (H : exists content,
             files_written (trace (generate_bot_ips world_unsorted None))
             = [("bot_ips_config.py", content)])
    by (eexists; vm_compute; reflexivity).
  destruct H as (content & H). exists content. split; [exact H|].
  assert (Hin : In ("bot_ips_config.py", content)
                  (files_written (trace (generate_bot_ips world_unsorted None))))
    by (rewrite H; now left).
  split; [|exact (no_section_is_empty world_unsorted None _ _ Hin)].
  vm_compute in H. injection H as <-.
  vm_compute. repeat constructor; discriminate.
Defined.

(** X4.  The loop never removes a bot.  Whatever the mapping holds under
    a key when the loop starts (the additional bots) is still held under
    some value when it ends, and under the same value when no source
    yields that name. *)
Theorem configured_bots_persist w items : forall d total d' total' k v,
  outcome (for_each items (process_item w) (d, total)) = Ok (d', total') ->
  Dict.get k d = Some v ->
  (exists v', Dict.get k d' = Some v')
  /\ (~ In (canon k) (source_names w items) -> Dict.get k d' = Some v).
Proof.
  induction items as [|item items IH]; intros d total d' total' k v; cbn [for_each].
  - intros H Hg. injection H as <- <-. eauto.
  - rewrite outcome_bind, process_item_yields, source_names_cons.
    destruct (outcome (fetch_source w item)) as [found|]; [|discriminate].
    destruct (yields w item) as [[name rs]|].
    + intros H Hg.
      destruct (key_eqb (KStr name) k) eqn:E.
      * assert (Hg' : Dict.get k (Dict.set (KStr name) (Dict.sorted_set rs) d)
                      = Some (Dict.sorted_set rs)) by now apply get_set_eqb.
        destruct (IH _ _ _ _ _ _ H Hg') as [Hex _]. split; [exact Hex|].
        intros Hn. exfalso. apply Hn. left.
        apply key_eqb_canon in E. exact E.
      * assert (Hg' : Dict.get k (Dict.set (KStr name) (Dict.sorted_set rs) d)
                      = Some v) by (rewrite get_set_other; auto).
        destruct (IH _ _ _ _ _ _ H Hg') as [Hex Hsame]. split; [exact Hex|].
        intros Hn. apply Hsame. intros Hin. apply Hn. now right.
    + intros H Hg. exact (IH _ _ _ _ _ _ H Hg).
Qed.

Lemma configured_bots_persist_witness :
  let w := world_one_source_down in
  let items := [ source_entry "bot" "down" "https://down.example/ips.json";
                 source_entry "bot" "up" "https://up.example/ips.json" ] in
  let d := [(KStr "Bot - Up", ["203.0.113.7"]); (KStr "mine", ["10.0.0.1"])] in
  (exists v', Dict.get (KStr "Bot - Up")
                [(KStr "Bot - Up", ["192.0.2.0-192.0.2.255"]);
                 (KStr "mine", ["10.0.0.1"])] = Some v')
  /\ Dict.get (KStr "mine")
       [(KStr "Bot - Up", ["192.0.2.0-192.0.2.255"]); (KStr "mine", ["10.0.0.1"])]
     = Some ["10.0.0.1"].
Proof.
  intros w items d.
  assert (Hrun : outcome (for_each items (process_item w) (d, 2))
                 = Ok ([(KStr "Bot - Up", ["192.0.2.0-192.0.2.255"]);
                        (KStr "mine", ["10.0.0.1"])], 3))
    by (vm_compute; reflexivity).
  split.
  - exact (proj1 (configured_bots_persist w items _ _ (KStr "Bot - Up")
                    Hrun eq_refl)).
  - apply (proj2 (configured_bots_persist w items _ _ (KStr "mine")
                    Hrun eq_refl)).
    vm_compute. intros [H|[]]. discriminate.
Defined.

End MappingFacts.

Section CounterFacts.
Import PyStr PyVal core.

Lemma set_fresh k v d :
  ~ In (canon k) (map canon (Dict.keys d)) ->
  Dict.keys (Dict.set k v d) = Dict.keys d ++ [k]
  /\ sum_lengths (Dict.set k v d) = sum_lengths d + List.length v.
Proof.
  unfold sum_lengths, Dict.values, Dict.keys, list_sum.
  induction d as [|[k' v'] d IH]; cbn [Dict.set map fold_right fst snd app].
  - intros _. split; [reflexivity|lia].
  - intros Hn. destruct (key_eqb k' k) eqn:E.
    + exfalso. apply Hn. left. apply key_eqb_canon in E. now symmetry.
    + destruct IH as [IHk IHs]; [intros H; apply Hn; now right|].
      cbn [map fold_right fst snd]. split; [now rewrite IHk|lia].
Qed.

Lemma sorted_set_length_nodup xs :
  NoDup xs -> List.length (Dict.sorted_set xs) = List.length xs.
Proof.
  intros H. rewrite <- (Permutation_length (sorted_set_perm xs)).
  now rewrite nodup_fixed_point.
Qed.

Lemma loop_total_exact w items : forall d d' total',
  NoDup (map canon (Dict.keys d) ++ source_names w items) ->
  Forall (fun item => forall name ranges,
              yields w item = Some (name, ranges) -> NoDup ranges) items ->
  outcome (for_each items (process_item w) (d, sum_lengths d)) = Ok (d', total') ->
  total' = sum_lengths d'.
Proof.
  induction items as [|item items IH]; intros d d' total' Hn Hr; cbn [for_each].
  - intros H. now injection H as <- <-.
  - rewrite outcome_bind, process_item_yields.
    rewrite source_names_cons in Hn. inversion Hr as [|? ? Hitem Hrest]; subst.
    destruct (outcome (fetch_source w item)) as [found|]; [|discriminate].
    destruct (yields w item) as [[name rs]|].
    + cbn [app] in Hn.
      assert (Hfresh : ~ In (canon (KStr name)) (map canon (Dict.keys d))).
      { apply NoDup_remove_2 in Hn. intros H. apply Hn.
        apply in_or_app. now left. }
      destruct (set_fresh (KStr name) (Dict.sorted_set rs) d Hfresh) as [Hk Hs].
      rewrite <- (sorted_set_length_nodup (Hitem _ _ eq_refl)), <- Hs.
      apply IH; [|exact Hrest].
      rewrite Hk, map_app, <- app_assoc. exact Hn.
    + apply IH; [exact Hn|exact Hrest].
Qed.

(** X5.  The trailing count is exact when nothing repeats: if the names
    of the additional bots and the names the sources yield are pairwise
    different, and no source extracts a range twice, then the number that
    the last comment of the file states is the number of ranges of the
    final mapping; and where no name, no range and not the time holds a
    line feed, it is the number of quoted range lines of the file. *)
Theorem total_is_exact_without_repeats w output_path fields items additional
    path content :
  fetched w (JStr main_url) = JDict fields ->
  lookup "data" fields = Some (JList items) ->
  outcome (load_additional_bots w None) = Ok additional ->
  NoDup (map canon (Dict.keys additional) ++ source_names w items) ->
  Forall (fun item => forall name ranges,
              yields w item = Some (name, ranges) -> NoDup ranges) items ->
  In (path, content) (files_written (trace (generate_bot_ips w output_path))) ->
  exists d total sections,
    outcome (aggregate w (fetched w (JStr main_url))) = Ok (Some (d, total))
    /\ Dict.sorted_items d = Ok sections
    /\ content = unlines (file_lines (datetime_now w) sections total)
    /\ total = sum_lengths sections
    /\ total_comment content = Some (str_nat (sum_lengths sections))
    /\ (one_line (datetime_now w) -> plain sections ->
        total_comment content = Some (str_nat (range_lines content))).
Proof.
  intros Hm Hd Hl Hn Hr H.
  destruct (generate_writes _ _ _ _ H) as (d & total & sections & Ha & Hs & _ & ->).
  assert (Ht : total = sum_lengths sections).
  { pose proof Ha as Ha'.
    rewrite Hm in Ha'. destruct (aggregate_passes _ _ Ha') as [Ht Hin].
    rewrite (aggregate_outcome w _ Ht Hin), Hl in Ha'.
    cbn [py_getitem] in Ha'. rewrite Hd in Ha'. cbn [py_iter] in Ha'.
    destruct (outcome (for_each items _ _)) as [[d1 t1]|] eqn:Ef; [|discriminate].
    injection Ha' as -> ->.
    rewrite (@loop_total_exact w items additional _ _ Hn Hr Ef).
    unfold sum_lengths, Dict.values.
    apply Permutation_list_sum. do 2 apply Permutation_map.
    now apply sorted_items_perm. }
  exists d, total, sections. split; [exact Ha|]. split; [exact Hs|].
  split; [apply output_content_lines|]. split; [exact Ht|].
  rewrite total_comment_output_content. split; [now rewrite Ht|].
  intros Hone Hp. now rewrite range_lines_output_content, Ht.
Qed.

Lemma total_is_exact_without_repeats_witness :
  let w := world_clean in
  exists content,
    files_written (trace (generate_bot_ips w None)) = [("bot_ips_config.py", content)]
    /\ total_comment content = Some "4"%string
    /\ range_lines content = 4
    /\ exists d total sections,
         outcome (aggregate w (fetched w (JStr main_url))) = Ok (Some (d, total))
         /\ Dict.sorted_items d = Ok sections
         /\ content = unlines (file_lines (datetime_now w) sections total)
         /\ total = sum_lengths sections
         /\ total_comment content = Some (str_nat (sum_lengths sections))
         /\ (one_line (datetime_now w) -> plain sections ->
             total_comment content = Some (str_nat (range_lines content))).
Proof.
  assert (H : exists content,
             files_written (trace (generate_bot_ips world_clean None))
             = [("bot_ips_config.py", content)])
    by (eexists; vm_compute; reflexivity).
  destruct H as (content & H). exists content. split; [exact H|].
  assert (Hin : In ("bot_ips_config.py", content)
                  (files_written (trace (generate_bot_ips world_clean None))))
    by (rewrite H; now left).
  split; [|split].
  - vm_compute in H. injection H as <-. vm_compute. reflexivity.
  - vm_compute in H. injection H as <-. vm_compute. reflexivity.
  - apply (@total_is_exact_without_repeats world_clean None
             [("data", JList [ source_entry "search" "alpha-bot" "https://a.example/ips.json";
                               source_entry "search" "beta" "https://b.example/ips.json" ])]
             [ source_entry "search" "alpha-bot" "https://a.example/ips.json";
               source_entry "search" "beta" "https://b.example/ips.json" ]
             [(KStr "mine", ["10.0.0.1"])]
             "bot_ips_config.py" content).
    + reflexivity.
    + reflexivity.
    + vm_compute. reflexivity.
    + vm_compute. repeat constructor; cbn; intuition discriminate.
    + repeat constructor; intros name ranges H'; vm_compute in H';
        injection H' as <- <-; repeat constructor; cbn; intuition discriminate.
    + exact Hin.
Defined.

End CounterFacts.

Section NameFacts.
Import PyStr PyVal core.

Lemma upper_range c :
  is_upper c = true -> 65 <= nat_of_ascii c <= 90.
Proof.
  unfold is_upper. intros H. apply andb_true_iff in H as [H1 H2].
  apply Nat.leb_le in H1, H2. lia.
Qed.

Lemma upper_not_lower c : is_upper c = true -> is_lower c = false.
Proof.
  intros H. apply upper_range in H. unfold is_lower.
  apply andb_false_iff. left. apply Nat.leb_gt. lia.
Qed.

Lemma to_lower_code c :
  is_upper c = true -> nat_of_ascii (to_lower c) = nat_of_ascii c + 32.
Proof.
  intros H. unfold to_lower. rewrite H. apply upper_range in H.
  apply nat_ascii_embedding. lia.
Qed.

Lemma to_lower_is_lower c : is_upper c = true -> is_lower (to_lower c) = true.
Proof.
  intros H. unfold is_lower. rewrite (to_lower_code _ H).
  apply upper_range in H. apply andb_true_iff.
  split; apply Nat.leb_le; lia.
Qed.

Lemma to_upper_to_lower c : is_upper c = true -> to_upper (to_lower c) = c.
Proof.
  intros H. unfold to_upper. rewrite (to_lower_is_lower _ H), (to_lower_code _ H).
  replace (nat_of_ascii c + 32 - 32) with (nat_of_ascii c) by lia.
  apply ascii_nat_embedding.
Qed.

Lemma to_lower_fixed c : is_upper c = false -> to_lower c = c.
Proof. intros H. unfold to_lower. now rewrite H. Qed.

Lemma title_from_lower s : forall previous_is_cased,
  title_from previous_is_cased (lower s) = title_from previous_is_cased s.
Proof.
  induction s as [|c s IH]; intros b; [reflexivity|].
  cbn [lower title_from].
  destruct (is_upper c) eqn:Eu.
  - rewrite (to_lower_is_lower _ Eu), (upper_not_lower _ Eu),
      (to_upper_to_lower _ Eu), IH.
    reflexivity.
  - rewrite (to_lower_fixed _ Eu), Eu.
    destruct (is_lower c); now rewrite IH.
Qed.

Lemma title_lower s : title (lower s) = title s.
Proof. apply title_from_lower. Qed.

Lemma isascii_replace s : isascii (replace "-" " " s) = isascii s.
Proof.
  induction s as [|c s IH]; [reflexivity|]. cbn [replace isascii]. rewrite IH.
  destruct (Ascii.eqb_spec c "-") as [->|_]; reflexivity.
Qed.

(** X6.  The bot name of a source is [display_name] of its type and its
    id.  For ASCII types and ids that name is the ASCII title case of
    both, whatever the world, and it ignores their case and does not tell
    a hyphen in the id from a blank: sources whose ASCII types and ids
    differ in these ways only get the same name, and so share one entry
    of the mapping. *)
Theorem bot_name_ignores_case_and_hyphens :
  (forall w item name ranges,
      outcome (fetch_source w item) = Ok (Some (name, ranges)) ->
      exists source ty id,
        py_getitem item "source" = Ok source
        /\ py_get source "type" (JStr "unknown") = Ok (JStr ty)
        /\ py_get source "id" (JStr "unknown") = Ok (JStr id)
        /\ name = display_name w ty id) /\
  (forall w ty id,
      isascii ty = true -> isascii id = true ->
      display_name w ty id
      = (title ty ++ " - " ++ title (replace "-" " " id))%string) /\
  (forall w ty ty' id id',
      isascii ty = true -> isascii ty' = true ->
      isascii id = true -> isascii id' = true ->
      lower ty = lower ty' ->
      lower (replace "-" " " id) = lower (replace "-" " " id') ->
      display_name w ty id = display_name w ty' id').
Proof.
  assert (Hascii : forall w ty id,
             isascii ty = true -> isascii id = true ->
             display_name w ty id
             = (title ty ++ " - " ++ title (replace "-" " " id))%string).
  { intros w ty id Ht Hi. unfold display_name, str_title.
    now rewrite isascii_replace, Ht, Hi. }
  split; [|split; [exact Hascii|]].
  - intros w item name ranges H.
    destruct (fetch_source_yields _ _ H)
      as (source & url & ty & id & Hs & _ & Ht & Hi & _ & _ & _ & Hn).
    exists source, ty, id. auto.
  - intros w ty ty' id id' At At' Ai Ai' Ht Hi.
    rewrite !Hascii by assumption.
    rewrite <- (title_lower ty), <- (title_lower (replace "-" " " id)).
    rewrite Ht, Hi. now rewrite !title_lower.
Qed.

Lemma bot_name_ignores_case_and_hyphens_witness :
  lower "Search" = lower "SEARCH"
  /\ lower (replace "-" " " "google-bot") = lower (replace "-" " " "Google Bot")
  /\ display_name world_clean "Search" "google-bot"
     = display_name world_clean "SEARCH" "Google Bot"
  /\ display_name world_clean "Search" "google-bot" = "Search - Google Bot"%string.
Proof.
  split; [reflexivity|]. split; [reflexivity|].
  split; [|reflexivity].
  exact (proj2 (proj2 bot_name_ignores_case_and_hyphens)
           world_clean "Search" "SEARCH" "google-bot" "Google Bot"
           eq_refl eq_refl eq_refl eq_refl eq_refl eq_refl).
Defined.

End NameFacts.

Section ExtractorFacts.
Import PyStr PyVal core.

Lemma extract_prefix_run prefix acc :
  extract_prefix prefix acc
  = (prefix_diagnostics prefix, Ok (acc ++ prefix_ranges prefix)).
Proof.
  unfold extract_prefix, prefix_diagnostics, prefix_ranges.
  destruct prefix as [| | | | |fields]; try (cbn; now rewrite app_nil_r).
  destruct (lookup "ipv4Prefix" fields) as [cidr|]; [|cbn; now rewrite app_nil_r].
  destruct cidr as [| | |c| |]; try (cbn; now rewrite app_nil_r).
  unfold cidr_to_range, IPv4Network.
  destruct (ipaddress.IPv4Network_of c) as [network|e].
  - generalize (ipaddress.str_address (ipaddress.network_address network)),
               (ipaddress.str_address (ipaddress.broadcast_address network)).
    intros a b. rewrite bind_ret_l.
    assert (E : is_empty (a ++ "-" ++ b)%string = false) by (destruct a; reflexivity).
    now rewrite E.
  - cbn. now rewrite app_nil_r.
Qed.

Lemma extract_loop prefixes : forall acc,
  for_each prefixes extract_prefix acc
  = (flat_map prefix_diagnostics prefixes,
     Ok (acc ++ flat_map prefix_ranges prefixes)).
Proof.
  induction prefixes as [|p ps IH]; intros acc; cbn [for_each flat_map].
  - unfold ret. now rewrite app_nil_r.
  - rewrite extract_prefix_run. unfold bind. rewrite IH.
    now rewrite app_assoc.
Qed.

(** X7.  On a document with a [prefixes] list the extractor works entry
    by entry: its result is the ranges of the valid IPv4 prefixes, in the
    order of the document and with repetitions kept, and its diagnostics
    are, in the same order, one for every entry that is not a mapping,
    every [ipv4Prefix] that is not a string and every string that is no
    IPv4 network; an entry without [ipv4Prefix] is passed over in
    silence. *)
Theorem extract_works_entry_by_entry fields prefixes :
  lookup "prefixes" fields = Some (JList prefixes) ->
  extract_ipv4_addresses (JDict fields)
  = (flat_map prefix_diagnostics prefixes, Ok (flat_map prefix_ranges prefixes)).
Proof.
  intros H. unfold extract_ipv4_addresses. rewrite H. apply extract_loop.
Qed.

Lemma extract_works_entry_by_entry_witness :
  extract_ipv4_addresses
    (JDict [("prefixes", JList [ JDict [("ipv4Prefix", JStr "10.1.2.3/8")];
                                 JDict [("ipv4Prefix", JInt 7)];
                                 JDict [("ipv6Prefix", JStr "2001:db8::/32")];
                                 JDict [("ipv4Prefix", JStr "10.1.2.3/8")] ])])
  = ([Stderr (InvalidIpv4PrefixFormat (JInt 7))],
     Ok ["10.0.0.0-10.255.255.255"; "10.0.0.0-10.255.255.255"]).
Proof.
  exact (@extract_works_entry_by_entry
           [("prefixes", JList [ JDict [("ipv4Prefix", JStr "10.1.2.3/8")];
                                 JDict [("ipv4Prefix", JInt 7)];
                                 JDict [("ipv6Prefix", JStr "2001:db8::/32")];
                                 JDict [("ipv4Prefix", JStr "10.1.2.3/8")] ])]
           _ eq_refl).
Defined.

End ExtractorFacts.

Section ConfigurationFacts.
Import PyStr PyVal core.

Lemma fetch_json_truthy w url :
  truthy (fetched w url) = true -> fetch_json w url = ret (fetched w url).
Proof.
  unfold fetched, fetch_json. destruct (requests_get w url); [reflexivity|].
  discriminate.
Qed.

(** X8.  A configuration that cannot be read can abort the whole run.
    When the index has passed its check and reading the packaged
    configuration raises an exception other than the three that are
    caught, or the packaged one is not available and reading the local
    [additional_bots.json] raises one that is not caught, the exception
    escapes [generate_bot_ips]: the run ends after its first line, no
    source is fetched and no file is opened or written. *)
Theorem unreadable_configuration_aborts_run w output_path e :
  let main_data := fetched w (JStr main_url) in
  truthy main_data = true ->
  py_in "data" main_data = Ok true ->
  package_additional_bots w = Escapes e
  \/ (package_additional_bots w = Caught
      /\ path_exists w "additional_bots.json" = true
      /\ json_load_file w "additional_bots.json" = Escapes e) ->
  load_additional_bots w None = ([], Raise e)
  /\ generate_bot_ips w output_path
     = ([Stdout (FetchingEndpointList main_url)], Raise e).
Proof.
  intros main_data Ht Hin H.
  assert (Hl : load_additional_bots w None = ([], Raise e)).
  { unfold load_additional_bots, load_config, load_config_file.
    destruct H as [->|(-> & -> & ->)]; reflexivity. }
  split; [exact Hl|].
  assert (Ha : aggregate w main_data = ([], Raise e)).
  { unfold aggregate. rewrite Ht, Hin. cbn [negb].
    rewrite bind_lift_ok, bind_ret_l. cbn [negb]. now rewrite Hl. }
  unfold generate_bot_ips. rewrite (fetch_json_truthy _ _ Ht). fold main_data.
  rewrite bind_ret_l, Ha. reflexivity.
Qed.

Lemma unreadable_configuration_aborts_run_witness :
  load_additional_bots world_package_unreadable None = ([], Raise OSError)
  /\ generate_bot_ips world_package_unreadable (Some "out.py")
     = ([Stdout (FetchingEndpointList main_url)], Raise OSError).
Proof.
  apply (@unreadable_configuration_aborts_run world_package_unreadable
           (Some "out.py") OSError eq_refl eq_refl).
  left. reflexivity.
Defined.

End ConfigurationFacts.

(* ===================================================================== *)
(** * The front ends *)
(* ===================================================================== *)

Section FrontEndFacts.
Import PyStr PyVal core.












End FrontEndFacts.

(* ===================================================================== *)
(** * The numbers behind a range *)
(* ===================================================================== *)

Section RangeFacts.
Import PyStr PyVal core.
Local Open Scope Z_scope.

Lemma int_digits_nonneg s : forall acc,
  all_digits s = true -> 0 <= acc -> 0 <= int_digits acc s.
Proof.
  induction s as [|c s IH]; intros acc; cbn [all_digits int_digits]; [auto|].
  intros H Hacc. apply andb_true_iff in H as [Hc Hs].
  apply IH; [exact Hs|].
  unfold is_ascii_digit in Hc. apply andb_true_iff in Hc as [H1 H2].
  apply Nat.leb_le in H1, H2. lia.
Qed.

Lemma _parse_octet_range o b :
  ipaddress._parse_octet o = inr b -> 0 <= b <= 255.
Proof.
  unfold ipaddress._parse_octet.
  destruct (is_empty o); [discriminate|].
  destruct (isascii_isdigit o) eqn:Ed; cbn [negb]; [|discriminate].
  destruct (3 <? String.length o)%nat; [discriminate|].
  destruct (_ && _); [discriminate|].
  destruct (255 <? int10 o) eqn:E; [discriminate|].
  intros H. injection H as <-. apply Z.ltb_ge in E. split; [|exact E].
  unfold isascii_isdigit in Ed. apply andb_true_iff in Ed as [_ Ed].
  now apply int_digits_nonneg.
Qed.

Lemma _ip_int_from_string_range ip_str packed :
  ipaddress._ip_int_from_string ip_str = ipaddress.Parsed packed ->
  0 <= packed < 2 ^ 32.
Proof.
  unfold ipaddress._ip_int_from_string.
  destruct (is_empty ip_str); [discriminate|].
  destruct (split "." ip_str) as [|o1 [|o2 [|o3 [|o4 [|o5 rest]]]]];
    try discriminate.
  cbn [List.length Nat.eqb negb ipaddress.from_octets].
  destruct (ipaddress._parse_octet o1) as [|b1] eqn:E1; [discriminate|].
  destruct (ipaddress._parse_octet o2) as [|b2] eqn:E2; [discriminate|].
  destruct (ipaddress._parse_octet o3) as [|b3] eqn:E3; [discriminate|].
  destruct (ipaddress._parse_octet o4) as [|b4] eqn:E4; [discriminate|].
  apply _parse_octet_range in E1, E2, E3, E4.
  intros H.
  pose proof (f_equal (fun c => match c with
                                | ipaddress.Parsed v => v
                                | ipaddress.Invalid _ => 0
                                end) H) as Hv.
  cbv beta iota in Hv. change (2 ^ 32) with 4294967296. lia.
Qed.

Lemma _count_righthand_zero_bits_range number :
  0 <= ipaddress._count_righthand_zero_bits number 32 <= 32.
Proof.
  unfold ipaddress._count_righthand_zero_bits, ipaddress.bit_length.
  destruct (number =? 0); [lia|].
  destruct (_ =? 0); [lia|].
  pose proof (Z.log2_nonneg (Z.abs (Z.land (Z.lnot number) (number - 1)))).
  lia.
Qed.

Lemma _prefix_from_ip_int_range x p :
  ipaddress._prefix_from_ip_int x = Some p -> 0 <= p <= 32.
Proof.
  unfold ipaddress._prefix_from_ip_int, ipaddress._max_prefixlen.
  pose proof (_count_righthand_zero_bits_range x) as Hr.
  set (t := ipaddress._count_righthand_zero_bits x 32) in *.
  cbv zeta. destruct (negb _); [discriminate|].
  intros E. assert (p = 32 - t) by congruence. lia.
Qed.

Lemma _prefix_from_ip_string_range s p :
  ipaddress._prefix_from_ip_string s = ipaddress.Parsed p -> 0 <= p <= 32.
Proof.
  unfold ipaddress._prefix_from_ip_string.
  destruct (ipaddress._ip_int_from_string s) as [x|]; [|discriminate].
  destruct (ipaddress._prefix_from_ip_int x) as [q|] eqn:E1.
  - intros E. assert (p = q) by congruence. subst q.
    eapply _prefix_from_ip_int_range; eauto.
  - destruct (ipaddress._prefix_from_ip_int (Z.lxor x ipaddress._ALL_ONES))
      as [q|] eqn:E2; [|discriminate].
    intros E. assert (p = q) by congruence. subst q.
    eapply _prefix_from_ip_int_range; eauto.
Qed.

Lemma _prefix_from_prefix_string_range s p :
  ipaddress._prefix_from_prefix_string s = ipaddress.Parsed p -> 0 <= p <= 32.
Proof.
  unfold ipaddress._prefix_from_prefix_string, ipaddress._max_prefixlen.
  destruct (negb (isascii_isdigit s)); [discriminate|].
  destruct (negb _) eqn:E; [discriminate|].
  intros H. assert (p = int10 s) by congruence. subst p.
  apply negb_false_iff, andb_true_iff in E as [E1 E2].
  apply Z.leb_le in E1, E2. lia.
Qed.

Lemma _make_netmask_range mask nm prefixlen :
  ipaddress._make_netmask mask = ipaddress.Parsed (nm, prefixlen) ->
  0 <= prefixlen <= 32
  /\ nm = ipaddress._ip_int_from_prefix prefixlen
  /\ (mask = None -> prefixlen = 32).
Proof.
  unfold ipaddress._make_netmask.
  set (prefix := match mask with
                 | Some s =>
                     match ipaddress._prefix_from_prefix_string s with
                     | ipaddress.Parsed p => ipaddress.Parsed p
                     | ipaddress.Invalid _ => ipaddress._prefix_from_ip_string s
                     end
                 | None => ipaddress.Parsed ipaddress._max_prefixlen
                 end).
  assert (Hprefix : forall p, prefix = ipaddress.Parsed p ->
                              0 <= p <= 32 /\ (mask = None -> p = 32)).
  { intros p. subst prefix. destruct mask as [s|].
    - destruct (ipaddress._prefix_from_prefix_string s) as [q|] eqn:E.
      + intros H. assert (p = q) by congruence. subst q.
        split; [eapply _prefix_from_prefix_string_range; eauto|discriminate].
      + intros H. split; [eapply _prefix_from_ip_string_range; eauto|discriminate].
    - unfold ipaddress._max_prefixlen. intros H.
      assert (p = 32) by congruence. lia. }
  clearbody prefix. destruct prefix as [p|e]; [|discriminate].
  intros H. destruct (Hprefix p eq_refl) as [Hr Hn].
  assert (Hq : prefixlen = p) by congruence.
  assert (Hm : nm = ipaddress._ip_int_from_prefix p) by congruence.
  subst prefixlen. auto.
Qed.

(** The arithmetic of a mask of [p] leading ones on a 32-bit address. *)
Lemma netmask_arithmetic a p :
  0 <= a < 2 ^ 32 -> 0 <= p <= 32 ->
  let h := 32 - p in
  let nm := ipaddress._ip_int_from_prefix p in
  let net := Z.land a nm in
  Z.lxor nm ipaddress._ALL_ONES = 2 ^ h - 1
  /\ net = a - a mod 2 ^ h
  /\ Z.lor net (Z.lxor nm ipaddress._ALL_ONES) = net + 2 ^ h - 1.
Proof.
  intros Ha Hp h nm net.
  assert (Hh : 0 <= h <= 32) by (subst h; lia).
  assert (Hall : ipaddress._ALL_ONES = Z.ones 32) by reflexivity.
  assert (Hnm : nm = Z.lxor (Z.ones 32) (Z.ones h)).
  { subst nm. unfold ipaddress._ip_int_from_prefix. rewrite Hall.
    rewrite Z.shiftr_div_pow2 by lia.
    now rewrite Z.ones_div_pow2 by lia. }
  assert (Hhost : Z.lxor nm ipaddress._ALL_ONES = Z.ones h).
  { rewrite Hnm, Hall.
    rewrite (Z.lxor_comm (Z.ones 32)), Z.lxor_assoc, Z.lxor_nilpotent.
    apply Z.lxor_0_r. }
  assert (Hones : Z.ones h = 2 ^ h - 1)
    by (rewrite Z.ones_equiv; apply Z.sub_1_r || lia).
  assert (Hpow : 0 < 2 ^ h) by (apply Z.pow_pos_nonneg; lia).
  assert (Hnet : net = Z.shiftl (Z.shiftr a h) h).
  { subst net. rewrite Hnm. apply Z.bits_inj'. intros i Hi.
    rewrite Z.land_spec, Z.lxor_spec.
    rewrite !Z.testbit_ones_nonneg by lia.
    rewrite Z.shiftl_spec by lia.
    destruct (Z.ltb_spec i h) as [Hih|Hih].
    - rewrite (Z.testbit_neg_r _ (i - h)) by lia.
      destruct (Z.ltb_spec i 32); [|lia]. cbn. apply andb_false_r.
    - rewrite Z.shiftr_spec by lia. replace (i - h + h) with i by lia.
      destruct (Z.ltb_spec i 32) as [Hi32|Hi32]; cbn; [apply andb_true_r|].
      rewrite andb_false_r. symmetry.
      destruct (Z.eq_dec a 0) as [->|Hne]; [apply Z.bits_0|].
      apply Z.bits_above_log2; [lia|].
      apply Z.lt_le_trans with 32; [|exact Hi32].
      apply Z.log2_lt_pow2; lia. }
  assert (Hnet' : net = a - a mod 2 ^ h).
  { rewrite Hnet, Z.shiftl_mul_pow2, Z.shiftr_div_pow2 by lia.
    pose proof (Z.div_mod a (2 ^ h)). lia. }
  split; [now rewrite Hhost|]. split; [exact Hnet'|].
  rewrite Hhost.
  assert (Hdisj : Z.land net (Z.ones h) = 0).
  { rewrite Z.land_ones by lia. rewrite Hnet.
    rewrite Z.shiftl_mul_pow2 by lia. apply Z.mod_mul. lia. }
  pose proof (Zbitwise.Z.add_lor_land net (Z.ones h)) as Hadd.
  rewrite Hdisj in Hadd. lia.
Qed.

(** X11.  A range that [cidr_to_range] returns is well formed: its two
    ends are 32-bit addresses, the start is not above the end, the range
    holds exactly two to the power (32 minus the prefix length) addresses,
    and the address written in the CIDR lies in it. *)
Theorem range_contains_written_address cidr range :
  outcome (cidr_to_range (JStr cidr)) = Ok (Some range) ->
  exists network packed,
    ipaddress.IPv4Network_of cidr = ipaddress.Parsed network
    /\ written_address cidr = ipaddress.Parsed packed
    /\ range = (ipaddress.str_address (ipaddress.network_address network)
                ++ "-"
                ++ ipaddress.str_address (ipaddress.broadcast_address network))%string
    /\ 0 <= ipaddress.network_address network
    /\ ipaddress.network_address network <= packed
    /\ packed <= ipaddress.broadcast_address network
    /\ ipaddress.broadcast_address network < 2 ^ 32
    /\ 0 <= ipaddress._prefixlen network <= 32
    /\ ipaddress.broadcast_address network - ipaddress.network_address network + 1
       = 2 ^ (32 - ipaddress._prefixlen network).
Proof.
  unfold cidr_to_range, IPv4Network, written_address.
  destruct (ipaddress.IPv4Network_of cidr) as [network|e] eqn:E; [|discriminate].
  intros H. unfold outcome, ret in H. cbn [snd] in H.
  assert (Hrange : range
                   = (ipaddress.str_address (ipaddress.network_address network)
                      ++ "-"
                      ++ ipaddress.str_address (ipaddress.broadcast_address network))%string)
    by congruence.
  clear H. subst range.
  unfold ipaddress.IPv4Network_of, ipaddress._split_optional_netmask in E.
  destruct (2 <? List.length (split "/" cidr))%nat; [discriminate|].
  destruct (ipaddress._ip_int_from_string (hd EmptyString (split "/" cidr)))
    as [packed|] eqn:Ea; [|discriminate].
  destruct (ipaddress._make_netmask _) as [[nm p]|] eqn:Em; [|discriminate].
  injection E as <-.
  apply _ip_int_from_string_range in Ea.
  apply _make_netmask_range in Em as (Hp & -> & _).
  destruct (netmask_arithmetic Ea Hp) as (Hhost & Hnet & Hbc).
  unfold ipaddress.broadcast_address, ipaddress.hostmask.
  cbn [ipaddress.network_address ipaddress.netmask ipaddress._prefixlen].
  exists {| ipaddress.network_address := Z.land packed (ipaddress._ip_int_from_prefix p);
            ipaddress.netmask := ipaddress._ip_int_from_prefix p;
            ipaddress._prefixlen := p |}, packed.
  cbn [ipaddress.network_address ipaddress.netmask ipaddress._prefixlen].
  rewrite Hbc, Hnet.
  assert (Hpow : 0 < 2 ^ (32 - p)) by (apply Z.pow_pos_nonneg; lia).
  pose proof (Z.mod_pos_bound packed (2 ^ (32 - p)) Hpow) as Hmod.
  assert (Hmul : 2 ^ 32 = 2 ^ p * 2 ^ (32 - p))
    by (rewrite <- Z.pow_add_r by lia; f_equal; lia).
  assert (Hdiv : packed / 2 ^ (32 - p) < 2 ^ p).
  { apply Z.div_lt_upper_bound; [exact Hpow|]. rewrite Z.mul_comm, <- Hmul. lia. }
  pose proof (Z.div_mod packed (2 ^ (32 - p))) as Hdm.
  assert (Hdiv0 : 0 <= packed / 2 ^ (32 - p)) by (apply Z.div_pos; lia).
  repeat split; try reflexivity; try lia; nia.
Qed.

Lemma range_contains_written_address_witness :
  outcome (cidr_to_range (JStr "198.51.100.77/22"))
  = Ok (Some "198.51.100.0-198.51.103.255"%string)
  /\ exists network packed,
       ipaddress.IPv4Network_of "198.51.100.77/22" = ipaddress.Parsed network
       /\ written_address "198.51.100.77/22" = ipaddress.Parsed packed
       /\ "198.51.100.0-198.51.103.255"%string
          = (ipaddress.str_address (ipaddress.network_address network)
             ++ "-"
             ++ ipaddress.str_address (ipaddress.broadcast_address network))%string
       /\ 0 <= ipaddress.network_address network
       /\ ipaddress.network_address network <= packed
       /\ packed <= ipaddress.broadcast_address network
       /\ ipaddress.broadcast_address network < 2 ^ 32
       /\ 0 <= ipaddress._prefixlen network <= 32
       /\ ipaddress.broadcast_address network - ipaddress.network_address network + 1
          = 2 ^ (32 - ipaddress._prefixlen network).
Proof.
  assert (H : outcome (cidr_to_range (JStr "198.51.100.77/22"))
              = Ok (Some "198.51.100.0-198.51.103.255"%string))
    by (vm_compute; reflexivity).
  split; [exact H|].
  exact (range_contains_written_address "198.51.100.77/22" H).
Defined.

End RangeFacts.

Section SingleAddress.
Import PyStr PyVal core.
Local Open Scope Z_scope.

Lemma contains_slash_mem s : contains "/" s = mem "/" s.
Proof.
  induction s as [|c s IH]; [reflexivity|].
  cbn [contains mem String.prefix]. rewrite IH.
  destruct (Ascii.ascii_dec "/" c) as [<-|Hne].
  - rewrite Ascii.eqb_refl. now destruct s.
  - destruct (Ascii.eqb_spec c "/") as [->|_]; [congruence|]. reflexivity.
Qed.

(** X12.  A text without a slash that the normaliser accepts is a single
    address, and its range is that address twice: start and end are
    equal. *)
Theorem bare_address_is_one_address_range text range :
  contains "/" text = false ->
  outcome (cidr_to_range (JStr text)) = Ok (Some range) ->
  exists packed,
    ipaddress._ip_int_from_string text = ipaddress.Parsed packed
    /\ 0 <= packed < 2 ^ 32
    /\ range = (ipaddress.str_address packed ++ "-"
                ++ ipaddress.str_address packed)%string.
Proof.
  intros Hs. rewrite contains_slash_mem in Hs.
  unfold cidr_to_range, IPv4Network.
  unfold ipaddress.IPv4Network_of, ipaddress._split_optional_netmask.
  rewrite (split_no_sep _ _ Hs). cbn [List.length Nat.ltb Nat.leb hd].
  destruct (ipaddress._ip_int_from_string text) as [packed|] eqn:Ea;
    [|discriminate].
  pose proof (_ip_int_from_string_range _ Ea) as Hr.
  assert (Hm : ipaddress._make_netmask None
               = ipaddress.Parsed (Z.ones 32, 32)) by (vm_compute; reflexivity).
  rewrite Hm.
  assert (Hnet : Z.land packed (Z.ones 32) = packed)
    by (rewrite Z.land_ones by lia; apply Z.mod_small; exact Hr).
  assert (Hbc : ipaddress.broadcast_address
                  (ipaddress.mkNetwork (Z.land packed (Z.ones 32)) (Z.ones 32) 32)
                = packed).
  { unfold ipaddress.broadcast_address, ipaddress.hostmask.
    cbn [ipaddress.network_address ipaddress.netmask].
    rewrite Hnet.
    change (Z.lxor (Z.ones 32) ipaddress._ALL_ONES) with 0.
    apply Z.lor_0_r. }
  rewrite Hbc. cbn [ipaddress.network_address]. rewrite Hnet.
  intros H. exists packed. split; [reflexivity|]. split; [exact Hr|].
  unfold outcome, ret in H. cbn [snd] in H. congruence.
Qed.

Lemma bare_address_is_one_address_range_witness :
  contains "/" "203.0.113.7" = false
  /\ outcome (cidr_to_range (JStr "203.0.113.7"))
     = Ok (Some "203.0.113.7-203.0.113.7"%string)
  /\ exists packed,
       ipaddress._ip_int_from_string "203.0.113.7" = ipaddress.Parsed packed
       /\ 0 <= packed < 2 ^ 32
       /\ "203.0.113.7-203.0.113.7"%string
          = (ipaddress.str_address packed ++ "-"
             ++ ipaddress.str_address packed)%string.
Proof.
  assert (H : outcome (cidr_to_range (JStr "203.0.113.7"))
              = Ok (Some "203.0.113.7-203.0.113.7"%string))
    by (vm_compute; reflexivity).
  split; [reflexivity|]. split; [exact H|].
  exact (bare_address_is_one_address_range "203.0.113.7" eq_refl H).
Defined.

End SingleAddress.

(** ** The loader's output, loaded again *)

Section ReloadFacts.
Import PyStr PyVal core.

Lemma digits_slash_free d : mem "/" (NilEmpty.string_of_uint d) = false.
Proof. induction d; cbn [NilEmpty.string_of_uint mem]; auto. Qed.

Lemma str_int_slash_free z : mem "/" (str_int z) = false.
Proof.
  unfold str_int, NilZero.string_of_int.
  destruct (Z.to_int z) as [d|d]; unfold NilZero.string_of_uint;
    destruct d; cbn [mem NilEmpty.string_of_uint]; try reflexivity;
    apply digits_slash_free.
Qed.

Lemma str_address_slash_free ip : mem "/" (ipaddress.str_address ip) = false.
Proof.
  unfold ipaddress.str_address, ipaddress.to_bytes4, join.
  cbn [map String.concat]. rewrite !mem_append, !str_int_slash_free.
  reflexivity.
Qed.

Lemma range_slash_free cidr r :
  outcome (cidr_to_range cidr) = Ok (Some r) -> slash_free r.
Proof.
  unfold cidr_to_range. destruct (IPv4Network cidr) as [network|e];
    [|discriminate].
  pose proof (str_address_slash_free (ipaddress.network_address network)) as Ha.
  pose proof (str_address_slash_free (ipaddress.broadcast_address network)) as Hb.
  revert Ha Hb.
  generalize (ipaddress.str_address (ipaddress.network_address network)),
             (ipaddress.str_address (ipaddress.broadcast_address network)).
  intros a b Ha Hb H. unfold outcome, ret in H. cbn [snd] in H.
  assert (Hr : r = (a ++ "-" ++ b)%string) by congruence. subst r.
  unfold slash_free. rewrite contains_slash_mem, !mem_append, Ha, Hb.
  reflexivity.
Qed.

(** The inner loop collects no text with a slash. *)
Lemma add_ip_range_slash_free ip_range acc acc' :
  (forall s, In (JStr s) acc -> slash_free s) ->
  outcome (add_ip_range ip_range acc) = Ok acc' ->
  forall s, In (JStr s) acc' -> slash_free s.
Proof.
  intros Hacc. unfold add_ip_range. rewrite outcome_bind. cbn [outcome lift snd].
  destruct (py_in "/" ip_range) as [[|]|] eqn:Ein; [| |discriminate].
  - rewrite outcome_bind.
    destruct (outcome (cidr_to_range ip_range)) as [[r|]|] eqn:Er;
      [| |discriminate].
    + destruct (is_empty r); intros H; injection H as <-; [exact Hacc|].
      intros s Hs. apply in_app_or in Hs as [Hs|[Hs|[]]]; [now apply Hacc|].
      injection Hs as <-. exact (range_slash_free _ Er).
    + intros H. injection H as <-. exact Hacc.
  - intros H. injection H as <-.
    intros s Hs. apply in_app_or in Hs as [Hs|[Hs|[]]]; [now apply Hacc|].
    subst ip_range. cbn [py_in] in Ein. unfold slash_free. congruence.
Qed.

Lemma add_bot_slash_free bot d d' :
  outcome (add_bot bot d) = Ok d' ->
  Forall (Forall slash_free) (Dict.values d) ->
  Forall (Forall slash_free) (Dict.values d').
Proof.
  unfold add_bot. rewrite outcome_bind. cbn [outcome lift snd].
  destruct (py_get bot "name" _) as [bot_name|]; [|discriminate].
  rewrite outcome_bind. cbn [outcome lift snd].
  destruct (py_get bot "ip_ranges" _) as [listed|]; [|discriminate].
  rewrite outcome_bind. cbn [outcome lift snd].
  destruct (py_iter listed) as [elements|]; [|discriminate].
  rewrite outcome_bind.
  destruct (outcome (for_each elements add_ip_range [])) as [[|r rs]|] eqn:El;
    [|cbv beta iota|discriminate].
  - intros H. now injection H as <-.
  - rewrite outcome_bind. cbn [outcome lift snd].
    destruct (sorted_set_values (r :: rs)) as [value|] eqn:E; [|discriminate].
    apply sorted_set_values_ok in E as (ss & Hss & ->).
    destruct (hashable bot_name) as [key|]; [|discriminate].
    intros H Hd. injection H as <-. apply set_values; [exact Hd|].
    apply Forall_forall. intros x Hx. apply (proj1 (sorted_set_In x ss)) in Hx.
    assert (Hinv : forall s, In (JStr s) (r :: rs) -> slash_free s).
    { revert El. apply (for_each_invariant
                          (fun acc => forall s, In (JStr s) acc -> slash_free s)).
      - intros e a a' Ha He. exact (add_ip_range_slash_free _ _ Ha He).
      - intros s []. }
    apply Hinv. rewrite (strings_of_inv _ Hss). exact (in_map JStr ss x Hx).
Qed.

Lemma load_additional_bots_slash_free w config_file d :
  outcome (load_additional_bots w config_file) = Ok d ->
  Forall (Forall slash_free) (Dict.values d).
Proof.
  unfold load_additional_bots. rewrite outcome_bind.
  destruct (outcome (load_config w config_file)) as [[config|]|];
    [| |discriminate].
  - rewrite outcome_bind. cbn [outcome lift snd].
    destruct (py_get config "additional_bots" _) as [listed|]; [|discriminate].
    rewrite outcome_bind. cbn [outcome lift snd].
    destruct (py_iter listed) as [entries|]; [|discriminate].
    apply (for_each_invariant
             (fun d => Forall (Forall slash_free) (Dict.values d))).
    + intros bot s s' Hs H. eapply add_bot_slash_free; eauto.
    + constructor.
  - intros H. injection H as <-. constructor.
Qed.

Lemma get_In_values name value d :
  Dict.get name d = Some value -> In value (Dict.values d).
Proof.
  induction d as [|[k v] d IH]; cbn; [discriminate|].
  destruct (key_eqb k name); [|auto].
  intros H. injection H as <-. now left.
Qed.

(** X13.  No range of the loaded mapping is in CIDR notation: whatever
    the configuration holds, every text the loader stores is free of
    slashes. *)
Theorem loaded_ranges_have_no_slash w config_file additional name value r :
  outcome (load_additional_bots w config_file) = Ok additional ->
  Dict.get name additional = Some value ->
  In r value ->
  contains "/" r = false.
Proof.
  intros Hl Hg Hr.
  pose proof (load_additional_bots_slash_free _ _ Hl) as H.
  rewrite Forall_forall in H. specialize (H _ (get_In_values _ _ Hg)).
  rewrite Forall_forall in H. exact (H _ Hr).
Qed.

Lemma loaded_ranges_have_no_slash_witness :
  outcome (load_additional_bots world_with_example_config None)
  = Ok [(KStr "test_bot", ["10.0.0.1"; "192.0.2.0-192.0.2.255"])]
  /\ contains "/" "192.0.2.0-192.0.2.255" = false.
Proof.
  assert (H : outcome (load_additional_bots world_with_example_config None)
              = Ok [(KStr "test_bot", ["10.0.0.1"; "192.0.2.0-192.0.2.255"])])
    by (vm_compute; reflexivity).
  split; [exact H|].
  apply (loaded_ranges_have_no_slash world_with_example_config None
           (KStr "test_bot") "192.0.2.0-192.0.2.255" H eq_refl).
  right. left. reflexivity.
Defined.

(** *** Reading the written-back mapping *)

Lemma decode_config_of m : decode_config (config_of m) = Some m.
Proof.
  unfold config_of, decode_config.
  change (lookup "additional_bots" [("additional_bots", ?v)]) with (Some v).
  cbv beta iota.
  induction m as [|[k v] m IH]; [reflexivity|].
  cbn [map decode_all fst snd]. rewrite IH.
  unfold decode_bot, decode_name, decode_ranges.
  change (lookup "name" (("name", ?n) :: ?rest)) with (Some n).
  change (lookup "ip_ranges" [("name", ?n); ("ip_ranges", ?x)]) with (Some x).
  cbv beta iota. rewrite strings_of_map.
  destruct k; reflexivity.
Qed.

Lemma load_additional_bots_decoded w config_file config entries :
  outcome (load_config w config_file) = Ok (Some config) ->
  decode_config config = Some entries ->
  outcome (load_additional_bots w config_file)
  = Ok (additional_bots_spec entries).
Proof.
  intros Hc Hd.
  unfold load_additional_bots. rewrite outcome_bind, Hc.
  destruct config as [| | | | |fields]; try discriminate.
  cbn [py_get decode_config] in *. rewrite bind_lift_ok.
  destruct (lookup "additional_bots" fields) as [[]|]; try discriminate.
  - cbn [py_iter]. rewrite bind_lift_ok. now apply add_bots_decoded.
  - injection Hd as <-. reflexivity.
Qed.

(** *** Normalising what is normal *)

Lemma normalized_slash_free rs : Forall slash_free rs -> normalized rs = rs.
Proof.
  unfold normalized. induction 1 as [|r rs Hr _ IH]; cbn [flat_map];
    [reflexivity|].
  unfold normalize_range at 1. rewrite Hr, IH. reflexivity.
Qed.

Lemma ascending_NoDup l : ascending l -> NoDup l.
Proof.
  induction 1 as [|x l _ IH Hx]; constructor; [|exact IH].
  intros Hin. rewrite Forall_forall in Hx.
  exact (StrOrder.lt_irrefl (Hx _ Hin)).
Qed.

Lemma isort_ascending l : ascending l -> isort String.leb l = l.
Proof.
  induction 1 as [|x l _ IH Hx]; cbn [isort fold_right]; [reflexivity|].
  change (fold_right (insert String.leb) [] l) with (isort String.leb l).
  rewrite IH. destruct l as [|y l]; [reflexivity|]. cbn [insert].
  inversion Hx as [|? ? Hy _]; subst.
  assert (E : String.leb x y = true)
    by exact (proj2 (StrOrder.le_iff x y) (or_introl Hy)).
  now rewrite E.
Qed.

Lemma sorted_set_ascending_fixed l : ascending l -> Dict.sorted_set l = l.
Proof.
  intros H. unfold Dict.sorted_set.
  rewrite (nodup_fixed_point string_dec (ascending_NoDup H)).
  now apply isort_ascending.
Qed.

Lemma set_fresh_app k v d :
  ~ In (canon k) (map canon (Dict.keys d)) -> Dict.set k v d = (d ++ [(k, v)])%list.
Proof.
  induction d as [|[k' v'] d IH]; cbn [Dict.set Dict.keys map fst app];
    [reflexivity|].
  intros H. destruct (key_eqb k' k) eqn:E.
  - apply key_eqb_canon in E. exfalso. apply H. now left.
  - rewrite IH; [reflexivity|]. intros Hin. apply H. now right.
Qed.

Lemma spec_fold_settled m : forall acc,
  distinct_keys (acc ++ m) ->
  Forall settled (Dict.values m) ->
  fold_left spec_add_bot m acc = (acc ++ m)%list.
Proof.
  induction m as [|[k v] m IH]; intros acc Hd Hv; cbn [fold_left].
  - now rewrite app_nil_r.
  - cbn [Dict.values map snd] in Hv. inversion Hv as [|? ? (Hne & Ha & Hs) Hm]; subst.
    unfold spec_add_bot at 2. cbn [fst snd].
    rewrite (normalized_slash_free Hs).
    destruct v as [|x v]; [congruence|].
    rewrite (sorted_set_ascending_fixed Ha).
    assert (Hf : ~ In (canon k) (map canon (Dict.keys acc))).
    { unfold distinct_keys, Dict.keys in Hd. rewrite !map_app in Hd.
      cbn [map fst] in Hd. apply NoDup_remove_2 in Hd.
      intros Hin. apply Hd. apply in_or_app. now left. }
    rewrite (@set_fresh_app k (x :: v) acc Hf).
    rewrite IH; [now rewrite <- app_assoc| |exact Hm].
    now rewrite <- app_assoc.
Qed.

(** X14.  The loader's output is a fixed point of the loader: a
    configuration whose entries are the bots of a loaded mapping, each with
    its name and its ranges, loads to that same mapping, in the same order. *)
Theorem reloading_changes_nothing w config_file additional w' config_file' :
  outcome (load_additional_bots w config_file) = Ok additional ->
  outcome (load_config w' config_file') = Ok (Some (config_of additional)) ->
  outcome (load_additional_bots w' config_file') = Ok additional.
Proof.
  intros Hl Hc.
  rewrite (load_additional_bots_decoded _ _ Hc (decode_config_of additional)).
  f_equal. unfold additional_bots_spec.
  destruct (load_additional_bots_tidy _ _ Hl) as [Hd Ha].
  pose proof (load_additional_bots_nonempty _ _ Hl) as Hne.
  pose proof (load_additional_bots_slash_free _ _ Hl) as Hs.
  apply (spec_fold_settled additional []); [exact Hd|].
  rewrite Forall_forall in *. intros v Hv. repeat split; auto.
Qed.

Lemma reloading_changes_nothing_witness :
  let additional := [(KStr "test_bot", ["10.0.0.1"; "192.0.2.0-192.0.2.255"])] in
  outcome (load_additional_bots world_with_example_config None) = Ok additional
  /\ outcome (load_config (world_with_config (config_of additional)) None)
     = Ok (Some (config_of additional))
  /\ outcome (load_additional_bots (world_with_config (config_of additional)) None)
     = Ok additional.
Proof.
  intros additional.
  assert (H1 : outcome (load_additional_bots world_with_example_config None)
               = Ok additional) by (vm_compute; reflexivity).
  assert (H2 : outcome (load_config (world_with_config (config_of additional)) None)
               = Ok (Some (config_of additional))) by reflexivity.
  split; [exact H1|]. split; [exact H2|].
  exact (reloading_changes_nothing world_with_example_config None
           (world_with_config (config_of additional)) None H1 H2).
Defined.

End ReloadFacts.
